(** * HoloViews streams: a shallow embedding of [holoviews/streams.py]

    The module defines [Preprocessor], [Rename] and [Stream] together with
    the concrete variants [PositionX], [PositionY] and [PositionXY].  Python
    dictionaries are finite maps, Python lists that are shared by reference
    live in a store, and the methods that mutate an instance or call a
    subscriber are written in a state-and-exception monad. *)

From Stdlib Require Import ZArith.
From stdpp Require Import base option list gmap sets strings.

Local Open Scope string_scope.
Local Open Scope list_scope.

(** ** Python values and dictionaries *)

(** The values a stream field can hold: [None], a number or a string. *)
Inductive PyVal :=
  | VNone
  | VNum (n : Z)
  | VStr (s : string).

#[global] Instance PyVal_eq_dec : EqDecision PyVal.
Proof. solve_decision. Defined.

#[global] Instance PyVal_inhabited : Inhabited PyVal := populate VNone.

(** A parameter dictionary: names to values. *)
Abbreviation Dict := (gmap string PyVal).

(** [d.get(k, dflt)] *)
Definition dict_get {V} (d : gmap string V) (k : string) (dflt : V) : V :=
  default dflt (d !! k).

(** [d.update(kvs)]: the pairs are stored one after the other, so a later
    pair overwrites an earlier pair with the same key. *)
Definition dict_update {V} (d : gmap string V) (kvs : list (string * V))
  : gmap string V :=
  foldl (λ acc kv, <[kv.1 := kv.2]> acc) d kvs.

(** [dict(kvs)] and the dictionary comprehension [{k: v for ...}]. *)
Definition dict_of_pairs {V} (kvs : list (string * V)) : gmap string V :=
  dict_update ∅ kvs.

(** ** Objects and the store *)

(** References to heap objects, and the identity of a callable (subscribers
    are compared by identity when they are put in a set). *)
Abbreviation loc := positive.
Abbreviation Callable := positive.

(** A [param.Parameter] object.  The variants declare [param.Number] fields;
    the implicit [name] field is a [param.String]. *)
Inductive ParamKind :=
  | Number
  | String_.

Record ParameterObj := {
  p_kind : ParamKind;
  p_default : PyVal;
  p_constant : bool
}.

#[global] Instance ParameterObj_inhabited : Inhabited ParameterObj :=
  populate {| p_kind := Number; p_default := VNone; p_constant := false |}.

(** [p.constant = b] *)
Definition with_constant (b : bool) (p : ParameterObj) : ParameterObj :=
  {| p_kind := p_kind p; p_default := p_default p; p_constant := b |}.

(** A preprocessor: [Preprocessor] is the base class, [Rename] its subclass
    in the module; [Custom] stands for a subclass defined by the user, whose
    [__call__] takes a dictionary and returns a dictionary. *)
Inductive Preprocessor :=
  | PreprocessorBase
  | Rename (mapping : gmap string string)
  | Custom (call : Dict → Dict).

(** The attributes of a [Stream] instance.  [subscribers], [preprocessors]
    and [_hidden_subscribers] are references to list objects in the store:
    several instances can hold the same list. *)
Record StreamObj := {
  cls : string;
  source : option loc;
  subscribers : loc;
  preprocessors : loc;
  _hidden_subscribers : loc;
  mapping : gmap string string;
  uuid : positive;
  param_values : Dict;
  attributes : Dict
}.

#[global] Instance StreamObj_inhabited : Inhabited StreamObj :=
  populate {| cls := ""; source := None; subscribers := 1%positive;
              preprocessors := 1%positive; _hidden_subscribers := 1%positive;
              mapping := ∅; uuid := 1%positive; param_values := ∅;
              attributes := ∅ |}.

Definition with_param_value (k : string) (v : PyVal) (o : StreamObj) : StreamObj :=
  {| cls := cls o; source := source o; subscribers := subscribers o;
     preprocessors := preprocessors o;
     _hidden_subscribers := _hidden_subscribers o; mapping := mapping o;
     uuid := uuid o; param_values := <[k := v]> (param_values o);
     attributes := attributes o |}.

(** An instance after a value was stored under a name that is not a
    declared field.  [attributes] holds the entries that such names add to
    the instance dictionary.  The attributes that [__init__] itself assigns
    are the fields above and are not looked up in [attributes]: the model
    follows a keyword of this kind only when it is none of the names that
    the module binds already (see [unbound] below). *)
Definition with_attribute (k : string) (v : PyVal) (o : StreamObj) : StreamObj :=
  {| cls := cls o; source := source o; subscribers := subscribers o;
     preprocessors := preprocessors o;
     _hidden_subscribers := _hidden_subscribers o; mapping := mapping o;
     uuid := uuid o; param_values := param_values o;
     attributes := <[k := v]> (attributes o) |}.

(** The store: the Parameter objects of every class ([cls.params()]), the
    Stream instances, the list objects, [Stream.registry], and the calls
    made to subscribers so far (oldest first). *)
Record Store := {
  classes : gmap string (gmap string ParameterObj);
  objects : gmap loc StreamObj;
  lists : gmap loc (list Callable);
  pre_lists : gmap loc (list Preprocessor);
  registry : list (positive * loc);
  calls : list (Callable * Dict);
  uuids : positive
}.

Definition with_classes (f : gmap string (gmap string ParameterObj) →
                             gmap string (gmap string ParameterObj))
  (σ : Store) : Store :=
  {| classes := f (classes σ); objects := objects σ; lists := lists σ;
     pre_lists := pre_lists σ; registry := registry σ; calls := calls σ;
     uuids := uuids σ |}.

Definition with_objects (f : gmap loc StreamObj → gmap loc StreamObj)
  (σ : Store) : Store :=
  {| classes := classes σ; objects := f (objects σ); lists := lists σ;
     pre_lists := pre_lists σ; registry := registry σ; calls := calls σ;
     uuids := uuids σ |}.

Definition with_lists (f : gmap loc (list Callable) → gmap loc (list Callable))
  (σ : Store) : Store :=
  {| classes := classes σ; objects := objects σ; lists := f (lists σ);
     pre_lists := pre_lists σ; registry := registry σ; calls := calls σ;
     uuids := uuids σ |}.

Definition with_pre_lists (f : gmap loc (list Preprocessor) →
                               gmap loc (list Preprocessor))
  (σ : Store) : Store :=
  {| classes := classes σ; objects := objects σ; lists := lists σ;
     pre_lists := f (pre_lists σ); registry := registry σ; calls := calls σ;
     uuids := uuids σ |}.

Definition with_registry (f : list (positive * loc) → list (positive * loc))
  (σ : Store) : Store :=
  {| classes := classes σ; objects := objects σ; lists := lists σ;
     pre_lists := pre_lists σ; registry := f (registry σ); calls := calls σ;
     uuids := uuids σ |}.

Definition with_calls (f : list (Callable * Dict) → list (Callable * Dict))
  (σ : Store) : Store :=
  {| classes := classes σ; objects := objects σ; lists := lists σ;
     pre_lists := pre_lists σ; registry := registry σ; calls := f (calls σ);
     uuids := uuids σ |}.

Definition with_uuids (f : positive → positive) (σ : Store) : Store :=
  {| classes := classes σ; objects := objects σ; lists := lists σ;
     pre_lists := pre_lists σ; registry := registry σ; calls := calls σ;
     uuids := f (uuids σ) |}.

(** An attribute assignment on the instance [self]. *)
Definition update_object (self : loc) (f : StreamObj → StreamObj)
  (σ : Store) : Store :=
  with_objects (alter f self) σ.

(** ** The names bound by the module *)




(** ** Exceptions and the monad of the methods *)

Inductive Exn :=
  | TypeError (msg : string)
  | ValueError (msg : string)
  | Exception (msg : string)
  | SubscriberError (code : nat).

#[global] Instance Exn_eq_dec : EqDecision Exn.
Proof. solve_decision. Defined.

Inductive Result (A : Type) :=
  | Ok (a : A)
  | Raise (e : Exn).
Arguments Ok {A} a.
Arguments Raise {A} e.

(** A method runs on a store and leaves a store, also when it raises: what
    was mutated before the exception stays mutated. *)
Definition M (A : Type) : Type := Store → Store * Result A.

Definition ret {A} (a : A) : M A := λ σ, (σ, Ok a).

Definition raise {A} (e : Exn) : M A := λ σ, (σ, Raise e).

Definition bind {A B} (m : M A) (k : A → M B) : M B :=
  λ σ, match m σ with
       | (σ', Ok a) => k a σ'
       | (σ', Raise e) => (σ', Raise e)
       end.

Definition get_store : M Store := λ σ, (σ, Ok σ).

Definition modify (f : Store → Store) : M unit := λ σ, (f σ, Ok tt).

Declare Scope py_scope.
Delimit Scope py_scope with py.
Notation "x <- m ;; k" := (bind m (λ x, k))
  (at level 100, m at next level, right associativity) : py_scope.
Notation "m ;;; k" := (bind m (λ _, k))
  (at level 100, right associativity) : py_scope.
Local Open Scope py_scope.

(** [for x in xs: body(x)] *)
Fixpoint for_each {A} (xs : list A) (body : A → M unit) : M unit :=
  match xs with
  | [] => ret tt
  | x :: xs' => body x ;;; for_each xs' body
  end.

(** [[f(x) for x in xs]] *)
Fixpoint map_m {A B} (f : A → M B) (xs : list A) : M (list B) :=
  match xs with
  | [] => ret []
  | x :: xs' => y <- f x ;; ys <- map_m f xs' ;; ret (y :: ys)
  end.

(** The store after the calls [new] were made. *)
Definition log_calls (new : list (Callable * Dict)) (σ : Store) : Store :=
  with_calls (λ cs, cs ++ new) σ.

(** ** The host interpreter

  Two things are left to the Python interpreter by the source: the order
  in which the items of a dictionary are produced, and the order in which
  a set is iterated.  Both are parameters of the model.  What a subscriber
  does when it is called is a parameter as well. *)

Section Model.

(** [d.items()], for a dictionary with string keys. *)
Variable items : ∀ V : Type, gmap string V → list (string * V).
Arguments items {_} _.

(** [for x in s], for a set of callables.  Within one call of [trigger] one
    set is iterated once; the interpreter may iterate two sets with the same
    members in different orders, so a property that compares two calls
    gives each of them an order of its own. *)
Variable set_iter : gset Callable → list Callable.

(** The outcome of [subscriber(union)]: a normal return ([None]; the
    returned value is ignored by the source) or an exception. *)
Variable call_subscriber : Callable → Dict → option Exn.

(** ** Preprocessors *)

(** [Rename.__call__]:
    [{self.mapping.get(k,k):v for (k,v) in params.items()}] *)
Definition Rename_call (mapping : gmap string string) (params : Dict) : Dict :=
  dict_of_pairs (map (λ kv, (dict_get mapping kv.1 kv.1, kv.2)) (items params)).

(** [preprocessor(params)]; the base class returns [params]. *)
Definition Preprocessor_call (p : Preprocessor) (params : Dict) : Dict :=
  match p with
  | PreprocessorBase => params
  | Rename mapping => Rename_call mapping params
  | Custom call => call params
  end.

(** ** The param library

    [Stream] derives from [param.Parameterized].  The library is imported by
    the module and is not part of the repository; the definitions of this
    part give the behaviour of the methods the module calls. *)

(** Modelled from the spec: the type constraint of a field of the [param]
    library ("declared type/constraint"): a numeric field takes a number,
    the [name] field takes a string. *)
Definition accepts (kind : ParamKind) (v : PyVal) : bool :=
  match kind, v with
  | Number, VNum _ => true
  | String_, VStr _ => true
  | _, _ => false
  end.

(** Modelled from the spec: [cls.params()] of the [param] library, the
    Parameter objects declared by a class, by name ("declared at the variant
    level; fixed per variant, not per instance"). *)
Definition class_params (σ : Store) (cname : string) : gmap string ParameterObj :=
  classes σ !!! cname.

(** [self.params()] *)
Definition params (σ : Store) (self : loc) : gmap string ParameterObj :=
  class_params σ (cls (objects σ !!! self)).

(** Modelled from the spec: [self.get_param_values()] of the [param]
    library, the (name, current value) pairs of all declared fields; a field
    that was never set has its default value.  The order of the pairs is the
    order of [items]. *)
Definition get_param_values (σ : Store) (self : loc) : list (string * PyVal) :=
  map (λ kp, (kp.1, default (p_default kp.2)
                      (param_values (objects σ !!! self) !! kp.1)))
      (items (params σ self)).

(** Modelled from the spec: attribute assignment [self.k = v] on a
    [Parameterized] instance of the [param] library.  A declared field
    rejects a value outside its type and rejects any assignment while its
    constant flag is set ("fields marked constant can only change via the
    update protocol"); a name that is not a declared field is accepted and
    creates new state on the instance ("a generic setter"). *)
Definition setattr (self : loc) (k : string) (v : PyVal) : M unit :=
  σ <- get_store ;;
  match params σ self !! k with
  | Some p =>
      if negb (accepts (p_kind p) v)
      then raise (ValueError "Parameter value is not of the declared type")
      else if p_constant p
      then raise (TypeError "Constant parameter cannot be modified")
      else modify (update_object self (with_param_value k v))
  | None => modify (update_object self (with_attribute k v))
  end.

(** Modelled from the spec: [self.set_param] with the keywords [kwargs] of the [param]
    library, which assigns every keyword in turn through the generic
    setter. *)
Definition set_param (self : loc) (kwargs : Dict) : M unit :=
  for_each (items kwargs) (λ kv, setattr self kv.1 kv.2).

(** Modelled from the spec: the assignment of one field override by
    [Parameterized.__init__] of the [param] library.  The instance is not
    initialised yet, so the constant flag does not apply; the type of a
    declared field does. *)
Definition init_param (self : loc) (k : string) (v : PyVal) : M unit :=
  σ <- get_store ;;
  match params σ self !! k with
  | Some p =>
      if negb (accepts (p_kind p) v)
      then raise (ValueError "Parameter value is not of the declared type")
      else modify (update_object self (with_param_value k v))
  | None => modify (update_object self (with_attribute k v))
  end.

(** Modelled from the spec: [Parameterized.__init__] of the [param] library
    with the keywords [params], which stores the field overrides given to
    the constructor. *)
Definition Parameterized_init (self : loc) (kwargs : Dict) : M unit :=
  for_each (items kwargs) (λ kv, init_param self kv.1 kv.2).

(** ** Stream *)

(** [subscriber(union)]: the call is recorded, then the subscriber returns
    or raises. *)
Definition call (subscriber : Callable) (arg : Dict) : M unit :=
  modify (log_calls [(subscriber, arg)]) ;;;
  match call_subscriber subscriber arg with
  | None => ret tt
  | Some e => raise e
  end.

(** What the [value] property returns in store [σ]:
    [remapped = {self.mapping.get(k,k):v for (k,v) in self.get_param_values()
                 if k != 'name'}], then every preprocessor in turn. *)
Definition value (σ : Store) (self : loc) : Dict :=
  let o := objects σ !!! self in
  let remapped :=
    dict_of_pairs
      (map (λ kv, (dict_get (mapping o) kv.1 kv.1, kv.2))
           (filter (λ kv, kv.1 ≠ "name") (get_param_values σ self))) in
  foldl (λ remapped preprocessor, Preprocessor_call preprocessor remapped)
        remapped (pre_lists σ !!! preprocessors o).

(** The read [self.value]. *)
Definition Stream_value (self : loc) : M Dict :=
  σ <- get_store ;;
  ret (value σ self).

(** [stream.subscribers + stream._hidden_subscribers] *)
Definition all_subscribers (σ : Store) (stream : loc) : list Callable :=
  (lists σ !!! subscribers (objects σ !!! stream))
  ++ (lists σ !!! _hidden_subscribers (objects σ !!! stream)).

(** The classmethod [Stream.trigger(streams)]:
    [items = [stream.value.items() for stream in streams]],
    [union = dict(kv for kvs in items for kv in kvs)],
    [groups = [stream.subscribers + stream._hidden_subscribers ...]],
    [subscribers = set(s for subscribers in groups for s in subscribers)],
    then the loop over the set. *)
Definition Stream_trigger (streams : list loc) : M unit :=
  items_ <- map_m (λ stream, v <- Stream_value stream ;; ret (items v))
                  streams ;;
  let union := dict_of_pairs (concat items_) in
  σ <- get_store ;;
  let groups := map (all_subscribers σ) streams in
  let subscribers := list_to_set (concat groups) : gset Callable in
  for_each (set_iter subscribers) (λ subscriber, call subscriber union).

(** The dictionary [union] and the set [subscribers] that [trigger] computes
    when it is called in store [σ]. *)
Definition trigger_union (σ : Store) (streams : list loc) : Dict :=
  dict_of_pairs (concat (map (λ stream, items (value σ stream)) streams)).

Definition trigger_subscribers (σ : Store) (streams : list loc) : gset Callable :=
  list_to_set (concat (map (all_subscribers σ) streams)).

(** [param.constant = b] on the Parameter object [k] of class [cname]. *)
Definition set_constant (cname k : string) (b : bool) : M unit :=
  modify (with_classes (alter (alter (with_constant b) k) cname)).

(** [Stream.update(self, trigger=True, **kwargs)].  [self.params().values()]
    is a list of Parameter objects; an object is known here by its name in
    the class. *)
Definition Stream_update (self : loc) (trigger : bool) (kwargs : Dict) : M unit :=
  σ <- get_store ;;
  let cname := cls (objects σ !!! self) in
  let params_ := items (params σ self) in
  let constants := map (λ p, p_constant p.2) params_ in
  for_each params_ (λ p, set_constant cname p.1 false) ;;;
  set_param self kwargs ;;;
  for_each (zip params_ constants) (λ pc, set_constant cname pc.1.1 pc.2) ;;;
  if trigger then Stream_trigger [self] else ret tt.

(** [Stream.find(obj)] *)
Definition Stream_find (σ : Store) (obj : option loc) : gset loc :=
  list_to_set (filter (λ v, source (objects σ !!! v) = obj)
                      (map snd (registry σ))).

(** The list objects made once, when [def __init__(..., subscribers=[],
    preprocessors=[], ...)] is executed. *)
Definition default_subscribers : loc := 1%positive.
Definition default_preprocessors : loc := 1%positive.

(** The [mapping] argument of the constructor. *)
Inductive MappingArg :=
  | MappingNone
  | MappingDict (d : gmap string string)
  | MappingOther (s : string).

(** A new list object [[]]. *)
Definition new_list : M loc :=
  σ <- get_store ;;
  let l := fresh ({[default_subscribers]} ∪ dom (lists σ)) in
  modify (with_lists (insert l [])) ;;;
  ret l.

(** [uuid.uuid4().hex]: a token that was not given out before. *)
Definition new_uuid : M positive :=
  σ <- get_store ;;
  modify (with_uuids Pos.succ) ;;;
  ret (uuids σ).

(** The instance under construction is put in the store. *)
Definition new_object (o : StreamObj) : M loc :=
  σ <- get_store ;;
  let l := fresh (dom (objects σ)) in
  modify (with_objects (insert l o)) ;;;
  ret l.

(** The [if]/[elif] chain of [__init__] that settles [self.mapping], for an
    instance of class [cname]:
    [{}] for [None], the dictionary itself for a dictionary,
    [{k:mapping for k in self.params() if k != 'name'}] for anything else
    when the class has two fields, and an exception otherwise. *)
Definition choose_mapping (cname : string) (mapping_arg : MappingArg)
  : M (gmap string string) :=
  σ <- get_store ;;
  match mapping_arg with
  | MappingNone => ret ∅
  | MappingDict d => ret d
  | MappingOther s =>
      if decide (size (class_params σ cname) = 2)
      then ret (dict_of_pairs
                  (map (λ k, (k, s))
                       (filter (λ k, k ≠ "name")
                               (map fst (items (class_params σ cname))))))
      else raise (Exception
                    "Stream has multiple parameters, please supply a dictionary")
  end.

(** The construction of an instance of class [cname]:
    [Stream.__init__(self, mapping=None, source=None, subscribers=[],
    preprocessors=[], **params)].  An argument [None] for [subscribers] or
    [preprocessors] is an omitted argument.  The registry entry is made
    under the token of [new_uuid], at the end of the registry: this is what
    [self.registry[self.uuid] = self] does as long as no keyword of
    [params] is one of the names that the module binds ([uuid] or
    [registry] among them); the properties that say which entry a
    constructor call adds to the registry ask this of their keywords. *)
Definition Stream_init (cname : string) (mapping_arg : MappingArg)
    (source_arg subscribers_arg preprocessors_arg : option loc)
    (params_arg : Dict) : M loc :=
  hidden <- new_list ;;
  mapping_ <- choose_mapping cname mapping_arg ;;
  uuid_ <- new_uuid ;;
  self <- new_object
            {| cls := cname; source := source_arg;
               subscribers := default default_subscribers subscribers_arg;
               preprocessors := default default_preprocessors preprocessors_arg;
               _hidden_subscribers := hidden; mapping := mapping_;
               uuid := uuid_; param_values := ∅; attributes := ∅ |} ;;
  Parameterized_init self params_arg ;;;
  modify (with_registry (λ r, r ++ [(uuid_, self)])) ;;;
  ret self.

(** [subscribers.append(s)] on a list object. *)
Definition list_append (l : loc) (s : Callable) : M unit :=
  modify (with_lists (λ h, <[l := (h !!! l) ++ [s]]> h)).

(** [preprocessors.append(p)] on a list object. *)
Definition pre_list_append (l : loc) (p : Preprocessor) : M unit :=
  modify (with_pre_lists (λ h, <[l := (h !!! l) ++ [p]]> h)).

End Model.

(** ** The classes of the module *)

(** Modelled from the spec: the implicit [name] field that [param] gives
    every class ("the implicit name field"). *)
Definition name_parameter (cname : string) : ParameterObj :=
  {| p_kind := String_; p_default := VStr cname; p_constant := true |}.

(** [param.Number(default=0, doc=..., constant=True)] *)
Definition number_parameter : ParameterObj :=
  {| p_kind := Number; p_default := VNum 0; p_constant := true |}.

Definition Stream_params : gmap string ParameterObj :=
  {[ "name" := name_parameter "Stream" ]}.

Definition PositionX_params : gmap string ParameterObj :=
  <[ "x" := number_parameter ]> {[ "name" := name_parameter "PositionX" ]}.

Definition PositionY_params : gmap string ParameterObj :=
  <[ "y" := number_parameter ]> {[ "name" := name_parameter "PositionY" ]}.

Definition PositionXY_params : gmap string ParameterObj :=
  <[ "x" := number_parameter ]>
    (<[ "y" := number_parameter ]> {[ "name" := name_parameter "PositionXY" ]}).

(** The store once the module is imported: the four classes, the two
    default list objects, an empty registry. *)
Definition module_store : Store :=
  {| classes := <[ "Stream" := Stream_params ]>
                  (<[ "PositionX" := PositionX_params ]>
                     (<[ "PositionY" := PositionY_params ]>
                        {[ "PositionXY" := PositionXY_params ]}));
     objects := ∅;
     lists := {[ default_subscribers := [] ]};
     pre_lists := {[ default_preprocessors := [] ]};
     registry := [];
     calls := [];
     uuids := 1%positive |}.

(** ** A host and two stores to run the model on *)

(** A host that produces the items of a dictionary and the members of a set
    in the order of the library. *)
Definition host_items : ∀ V : Type, gmap string V → list (string * V) :=
  λ V, map_to_list.

Definition host_set_iter : gset Callable → list Callable := elements.

(** Subscribers that all return, and subscribers of which number 7 raises. *)
Definition all_return : Callable → Dict → option Exn := λ _ _, None.

Definition seven_raises : Callable → Dict → option Exn :=
  λ c _, if decide (c = 7%positive) then Some (SubscriberError 7) else None.

(** The store after [a = PositionX(x=1); b = PositionX(x=2)]: [a] is
    instance 1 and [b] is instance 2. *)
Definition two_streams : Store :=
  ((Stream_init host_items "PositionX" MappingNone None None None
      {[ "x" := VNum 1 ]} ;;;
    Stream_init host_items "PositionX" MappingNone None None None
      {[ "x" := VNum 2 ]}) module_store).1.

(** The same after [a.subscribers.append(s7)] and
    [b._hidden_subscribers.append(s8)]. *)
Definition two_streams_subscribed : Store :=
  ((list_append (subscribers (objects two_streams !!! 1%positive))
      7%positive ;;;
    list_append (_hidden_subscribers (objects two_streams !!! 2%positive))
      8%positive) two_streams).1.


(** ** The effect of a sequence of assignments *)

(** The Parameter objects of a class after the assignments
    [param.constant = b] of a list of (name, flag) pairs. *)
Definition set_flags (kbs : list (string * bool))
  (ps : gmap string ParameterObj) : gmap string ParameterObj :=
  foldl (λ ps kb, alter (with_constant kb.2) kb.1 ps) ps kbs.

(** An instance after [self.k = v] was accepted, for a class that declares
    the fields [ps]. *)
Definition assign (ps : gmap string ParameterObj) (k : string) (v : PyVal)
  (o : StreamObj) : StreamObj :=
  match ps !! k with
  | Some _ => with_param_value k v o
  | None => with_attribute k v o
  end.

Definition assign_all (ps : gmap string ParameterObj)
  (kvs : list (string * PyVal)) (o : StreamObj) : StreamObj :=
  foldl (λ o kv, assign ps kv.1 kv.2 o) o kvs.

(** Whether a class that declares the fields [ps] refuses the value [v]
    for the name [k]. *)
Definition rejects (ps : gmap string ParameterObj) (k : string) (v : PyVal)
  : bool :=
  match ps !! k with
  | Some p => negb (accepts (p_kind p) v)
  | None => false
  end.

(** An assignment that leaves the class, the list objects and the mapping
    of an instance alone. *)
Definition same_shape (F : StreamObj → StreamObj) : Prop :=
  ∀ o, cls (F o) = cls o
       ∧ subscribers (F o) = subscribers o
       ∧ preprocessors (F o) = preprocessors o
       ∧ _hidden_subscribers (F o) = _hidden_subscribers o
       ∧ mapping (F o) = mapping o.

(** The store in which [update] runs [set_param]: the flags of all fields
    of the class of [self] are lifted. *)
Definition lift_constants (self : loc) (σ : Store) : Store :=
  with_classes (alter (fmap (with_constant false)) (cls (objects σ !!! self))) σ.

(** ** The registry *)

(** Every stream of the registry is an instance of the store. *)
Definition registry_live (σ : Store) : Prop :=
  ∀ l, l ∈ (registry σ).*2 → is_Some (objects σ !! l).

(** An assignment that leaves the source and the token of an instance
    alone. *)
Definition same_identity (F : StreamObj → StreamObj) : Prop :=
  ∀ o, source (F o) = source o ∧ uuid (F o) = uuid o.

(** ** The variants *)

(** [PositionX.__init__(self, mapping=None, **params)], which hands its
    arguments to [Stream.__init__]; [source], [subscribers] and
    [preprocessors] reach it among the keywords. *)
Definition PositionX_init (items : ∀ V : Type, gmap string V → list (string * V))
    (mapping_arg : MappingArg)
    (source_arg subscribers_arg preprocessors_arg : option loc)
    (params_arg : Dict) : M loc :=
  Stream_init items "PositionX" mapping_arg source_arg subscribers_arg
    preprocessors_arg params_arg.

(** [PositionY.__init__(self, mapping=None, **params)] *)
Definition PositionY_init (items : ∀ V : Type, gmap string V → list (string * V))
    (mapping_arg : MappingArg)
    (source_arg subscribers_arg preprocessors_arg : option loc)
    (params_arg : Dict) : M loc :=
  Stream_init items "PositionY" mapping_arg source_arg subscribers_arg
    preprocessors_arg params_arg.

(** [PositionXY.__init__(self, mapping=None, **params)] *)
Definition PositionXY_init (items : ∀ V : Type, gmap string V → list (string * V))
    (mapping_arg : MappingArg)
    (source_arg subscribers_arg preprocessors_arg : option loc)
    (params_arg : Dict) : M loc :=
  Stream_init items "PositionXY" mapping_arg source_arg subscribers_arg
    preprocessors_arg params_arg.

(** ** More stores to run the model on *)

(** The store after [a = PositionX(x=1)] alone. *)
Definition first_stream : Store :=
  (Stream_init host_items "PositionX" MappingNone None None None
     {[ "x" := VNum 1 ]} module_store).1.

(** The store after [PositionX(source=obj9)]. *)
Definition stream_with_source : Store :=
  (Stream_init host_items "PositionX" MappingNone (Some 9%positive) None None
     ∅ module_store).1.

(** The store after the failed call [PositionXY('pos')]. *)
Definition failed_construction : Store :=
  (PositionXY_init host_items (MappingOther "pos") None None None ∅
     module_store).1.

(** A host that iterates a set in the opposite order. *)
Definition host_set_iter_rev : gset Callable → list Callable :=
  λ X, reverse (elements X).

(** The store after [a = PositionX(x=1); c = PositionY(y=2);
    a.subscribers.append(s7); c._hidden_subscribers.append(s8)]. *)
Definition x_and_y_streams : Store :=
  ((a <- PositionX_init host_items MappingNone None None None
           {[ "x" := VNum 1 ]} ;;
    c <- PositionY_init host_items MappingNone None None None
           {[ "y" := VNum 2 ]} ;;
    σ <- get_store ;;
    list_append (subscribers (objects σ !!! a)) 7%positive ;;;
    list_append (_hidden_subscribers (objects σ !!! c)) 8%positive)
     module_store).1.

(** * Properties *)

(** ** Dictionaries built by successive assignment *)

Section DictUpdate.
Context {V : Type}.
Implicit Types (d : gmap string V) (kvs : list (string * V)).

Lemma dict_update_snoc d kvs k v :
  dict_update d (kvs ++ [(k, v)]) = <[k := v]> (dict_update d kvs).
Proof. unfold dict_update. by rewrite foldl_app. Qed.

Lemma dict_update_app d kvs1 kvs2 :
  dict_update d (kvs1 ++ kvs2) = dict_update (dict_update d kvs1) kvs2.
Proof. unfold dict_update. by rewrite foldl_app. Qed.

(** A key that is not assigned keeps its entry. *)
Lemma dict_update_lookup_notin d kvs k :
  k ∉ kvs.*1 → dict_update d kvs !! k = d !! k.
Proof.
  induction kvs as [|[k' v'] kvs IH] using rev_ind; [done|].
  rewrite fmap_app, dict_update_snoc. cbn. intros Hk.
  rewrite lookup_insert_ne by set_solver. apply IH. set_solver.
Qed.

(** Every entry of the result was assigned or was there before. *)
Lemma dict_update_lookup_Some d kvs k v :
  dict_update d kvs !! k = Some v → (k, v) ∈ kvs ∨ d !! k = Some v.
Proof.
  induction kvs as [|[k' v'] kvs IH] using rev_ind; [by right|].
  rewrite dict_update_snoc. intros [[-> ->]|[_ H]]%lookup_insert_Some.
  - left. set_solver.
  - destruct (IH H); [left; set_solver | by right].
Qed.

(** An assigned key is a key of the result. *)
Lemma dict_update_lookup_is_Some d kvs k :
  k ∈ kvs.*1 → ∃ v, (k, v) ∈ kvs ∧ dict_update d kvs !! k = Some v.
Proof.
  induction kvs as [|[k' v'] kvs IH] using rev_ind; [set_solver|].
  rewrite fmap_app, dict_update_snoc. cbn. intros Hk.
  destruct (decide (k' = k)) as [->|Hne].
  - exists v'. rewrite lookup_insert_eq. set_solver.
  - rewrite lookup_insert_ne by done.
    destruct IH as (v & ? & ?); [set_solver|]. exists v. set_solver.
Qed.

(** A key that is assigned one value only ends with that value. *)
Lemma dict_update_lookup_unique d kvs k v :
  (k, v) ∈ kvs → (∀ v', (k, v') ∈ kvs → v' = v) →
  dict_update d kvs !! k = Some v.
Proof.
  intros Hin Huniq.
  destruct (dict_update_lookup_is_Some d kvs k) as (v' & Hin' & ->).
  - apply list_elem_of_fmap. by exists (k, v).
  - by rewrite (Huniq v' Hin').
Qed.

(** With pairwise distinct keys the order of the assignments is immaterial:
    the result is the union, the assigned entries first. *)
Lemma dict_update_NoDup d kvs :
  NoDup kvs.*1 → dict_update d kvs = list_to_map kvs ∪ d.
Proof.
  intros Hnd. apply map_eq. intros k.
  rewrite lookup_union.
  destruct (decide (k ∈ kvs.*1)) as [Hin|Hnin].
  - destruct (dict_update_lookup_is_Some d kvs k Hin) as (v & Hv & ->).
    rewrite (elem_of_list_to_map_1 _ _ _ Hnd Hv).
    by destruct (d !! k).
  - rewrite dict_update_lookup_notin by done.
    apply not_elem_of_list_to_map_1 in Hnin. rewrite Hnin.
    by destruct (d !! k).
Qed.

End DictUpdate.

(** ** The host interpreter's iteration orders

    Whatever the order in which the interpreter produces the items of a
    dictionary or the members of a set, it produces each of them once. *)

Section Properties.
Variable items : ∀ V : Type, gmap string V → list (string * V).
Hypothesis items_perm : ∀ V (d : gmap string V), items V d ≡ₚ map_to_list d.
Variable set_iter : gset Callable → list Callable.
Hypothesis set_iter_perm : ∀ X, set_iter X ≡ₚ elements X.
Variable call_subscriber : Callable → Dict → option Exn.

Lemma elem_of_items {V} (d : gmap string V) k v :
  (k, v) ∈ items V d ↔ d !! k = Some v.
Proof using items_perm. rewrite items_perm. apply elem_of_map_to_list. Qed.

Lemma NoDup_fst_items {V} (d : gmap string V) : NoDup (items V d).*1.
Proof using items_perm. rewrite items_perm. apply NoDup_fst_map_to_list. Qed.

Lemma elem_of_fst_items {V} (d : gmap string V) k :
  k ∈ (items V d).*1 ↔ is_Some (d !! k).
Proof using items_perm.
  rewrite list_elem_of_fmap. split.
  - intros ([k' v] & -> & H%elem_of_items). by exists v.
  - intros [v H]. exists (k, v). by rewrite elem_of_items.
Qed.

Lemma list_to_map_items {V} (d : gmap string V) : list_to_map (items V d) = d.
Proof using items_perm.
  rewrite <- (list_to_map_to_list d) at 2.
  apply list_to_map_proper; [apply NoDup_fst_items | apply items_perm].
Qed.

(** [d0.update(d.items())] is the union that prefers [d]. *)
Lemma dict_update_items {V} (d0 d : gmap string V) :
  dict_update d0 (items V d) = d ∪ d0.
Proof using items_perm.
  rewrite dict_update_NoDup by apply NoDup_fst_items.
  by rewrite list_to_map_items.
Qed.

Lemma items_empty {V} : items V ∅ = [].
Proof using items_perm.
  apply Permutation_nil_r. rewrite items_perm. by rewrite map_to_list_empty.
Qed.

Lemma elem_of_set_iter X c : c ∈ set_iter X ↔ c ∈ X.
Proof using set_iter_perm. rewrite set_iter_perm. apply elem_of_elements. Qed.

Lemma NoDup_set_iter X : NoDup (set_iter X).
Proof using set_iter_perm. rewrite set_iter_perm. apply NoDup_elements. Qed.

(** ** Rename *)

(** A dictionary comprehension that renames the keys of [d] with [f]. *)
Lemma renamed_lookup_Some {V} (f : string → string) (d : gmap string V) k' v :
  dict_of_pairs (map (λ kv, (f kv.1, kv.2)) (items V d)) !! k' = Some v →
  ∃ k, d !! k = Some v ∧ f k = k'.
Proof using items_perm.
  intros [H|H]%dict_update_lookup_Some; [|by rewrite lookup_empty in H].
  apply list_elem_of_fmap in H as ([k v0] & [= -> ->] & H%elem_of_items).
  by exists k.
Qed.

Lemma renamed_lookup_is_Some {V} (f : string → string) (d : gmap string V) k :
  is_Some (d !! k) →
  is_Some (dict_of_pairs (map (λ kv, (f kv.1, kv.2)) (items V d)) !! f k).
Proof using items_perm.
  intros [v Hv].
  destruct (dict_update_lookup_is_Some (∅ : gmap string V)
              (map (λ kv, (f kv.1, kv.2)) (items V d)) (f k)) as (v' & _ & Hv').
  - rewrite <- list_fmap_compose. apply list_elem_of_fmap.
    exists (k, v). split; [done|]. by apply elem_of_items.
  - by exists v'.
Qed.

Lemma renamed_lookup_inj {V} (f : string → string) (d : gmap string V) k v :
  d !! k = Some v →
  (∀ k2, is_Some (d !! k2) → f k2 = f k → k2 = k) →
  dict_of_pairs (map (λ kv, (f kv.1, kv.2)) (items V d)) !! f k = Some v.
Proof using items_perm.
  intros Hv Hinj.
  destruct (renamed_lookup_is_Some f d k) as [v' Hv']; [by exists v|].
  rewrite Hv'. f_equal.
  apply renamed_lookup_Some in Hv' as (k2 & Hk2 & Heq).
  rewrite (Hinj k2) in Hk2 by (by rewrite ?Hk2). congruence.
Qed.

Lemma renamed_items_perm {V} (f : string → string) (d : gmap string V) :
  NoDup (map (λ kv, (f kv.1, kv.2)) (map_to_list d)).*1 →
  dict_of_pairs (map (λ kv, (f kv.1, kv.2)) (items V d))
  = list_to_map (map (λ kv, (f kv.1, kv.2)) (map_to_list d)).
Proof using items_perm.
  intros Hnd.
  assert (map (λ kv : string * V, (f kv.1, kv.2)) (items V d)
          ≡ₚ map (λ kv, (f kv.1, kv.2)) (map_to_list d)) as Hperm
    by (apply fmap_Permutation, items_perm).
  unfold dict_of_pairs. rewrite dict_update_NoDup by (by rewrite Hperm).
  rewrite (right_id_L ∅ (∪)).
  apply list_to_map_proper; [by rewrite Hperm | done].
Qed.

(** C9.  [Rename] renames keys and leaves values alone: every entry of the
    result is an entry of the input under the alias of its key (the key
    itself when the table has no alias for it); the alias of every input key
    is a key of the result; an input key whose alias no other input key
    shares keeps its value under the alias (when two input keys have the
    same alias the result holds one entry for them).  The empty dictionary
    is renamed to the empty dictionary, and [Rename(x='posx')] turns
    [{'x': 3, 'y': 4}] into [{'posx': 3, 'y': 4}].  The result is a function
    of the table and the input alone. *)
Theorem Rename_call_renames_keys (table : gmap string string) (params : Dict) :
  let alias := λ k, dict_get table k k in
  (∀ k' v, Rename_call items table params !! k' = Some v →
           ∃ k, params !! k = Some v ∧ alias k = k')
  ∧ (∀ k, is_Some (params !! k) →
          is_Some (Rename_call items table params !! alias k))
  ∧ (∀ k v, params !! k = Some v →
            (∀ k2, is_Some (params !! k2) → alias k2 = alias k → k2 = k) →
            Rename_call items table params !! alias k = Some v)
  ∧ Rename_call items table ∅ = ∅
  ∧ Rename_call items {[ "x" := "posx" ]}
      (<[ "x" := VNum 3 ]> {[ "y" := VNum 4 ]})
    = <[ "posx" := VNum 3 ]> {[ "y" := VNum 4 ]}.
Proof using items_perm.
  intros alias. unfold Rename_call. repeat split.
  - intros k' v. apply (renamed_lookup_Some alias).
  - intros k. apply (renamed_lookup_is_Some alias).
  - intros k v. apply (renamed_lookup_inj alias).
  - by rewrite items_empty.
  - rewrite (renamed_items_perm (λ k, dict_get {[ "x" := "posx" ]} k k)).
    + apply map_eq. intros k. by vm_compute.
    + apply (bool_decide_unpack _). by vm_compute.
Qed.

(** ** Running a method *)

Lemma bind_ok {A B} (m : M A) (k : A → M B) σ σ' a :
  m σ = (σ', Ok a) → bind m k σ = k a σ'.
Proof. unfold bind. by intros ->. Qed.

Lemma bind_raise {A B} (m : M A) (k : A → M B) σ σ' e :
  m σ = (σ', Raise e) → bind m k σ = (σ', Raise e).
Proof. unfold bind. by intros ->. Qed.

Lemma for_each_app {A} (xs ys : list A) (body : A → M unit) σ :
  for_each (xs ++ ys) body σ = (for_each xs body ;;; for_each ys body) σ.
Proof.
  revert σ. induction xs as [|x xs IH]; intros σ; [done|].
  cbn [app for_each]. unfold bind at 1 2 3.
  destruct (body x σ) as [σ' [[]|e]]; [|done].
  rewrite IH. reflexivity.
Qed.

(** ** The call log *)

Lemma log_calls_nil σ : log_calls [] σ = σ.
Proof. destruct σ. unfold log_calls, with_calls. cbn. by rewrite app_nil_r. Qed.

Lemma log_calls_app new1 new2 σ :
  log_calls new2 (log_calls new1 σ) = log_calls (new1 ++ new2) σ.
Proof. unfold log_calls, with_calls. cbn. by rewrite app_assoc. Qed.


(** ** trigger *)

Local Abbreviation call_ := (call call_subscriber).
Local Abbreviation value_ := (value items).
Local Abbreviation trigger_ := (Stream_trigger items set_iter call_subscriber).
Local Abbreviation union_ := (trigger_union items).

(** Reading [value] leaves the store as it is. *)
Lemma Stream_value_pure self σ :
  Stream_value items self σ = (σ, Ok (value_ σ self)).
Proof. done. Qed.

Lemma map_m_value streams σ :
  map_m (λ stream, v <- Stream_value items stream ;; ret (items _ v)) streams σ
  = (σ, Ok (map (λ stream, items _ (value_ σ stream)) streams)).
Proof.
  induction streams as [|s streams IH]; [done|].
  cbn [map_m map].
  erewrite bind_ok by (erewrite bind_ok; [|apply Stream_value_pure]; done).
  by erewrite bind_ok by exact IH.
Qed.

(** [trigger] first computes [union] and [subscribers] from the store it is
    called in, then runs the loop. *)
Lemma Stream_trigger_loop streams σ :
  trigger_ streams σ
  = for_each (set_iter (trigger_subscribers σ streams))
             (λ subscriber, call_ subscriber (union_ σ streams)) σ.
Proof. unfold Stream_trigger. by erewrite bind_ok by apply map_m_value. Qed.

Lemma call_ok c (u : Dict) σ :
  call_subscriber c u = None → call_ c u σ = (log_calls [(c, u)] σ, Ok tt).
Proof. intros H. unfold call. erewrite bind_ok by reflexivity. by rewrite H. Qed.

Lemma call_raise c e (u : Dict) σ :
  call_subscriber c u = Some e → call_ c u σ = (log_calls [(c, u)] σ, Raise e).
Proof. intros H. unfold call. erewrite bind_ok by reflexivity. by rewrite H. Qed.

(** The loop when every subscriber returns. *)
Lemma for_each_call_ok (xs : list Callable) (u : Dict) σ :
  (∀ c, c ∈ xs → call_subscriber c u = None) →
  for_each xs (λ c, call_ c u) σ = (log_calls (map (λ c, (c, u)) xs) σ, Ok tt).
Proof.
  revert σ. induction xs as [|x xs IH]; intros σ Hok.
  - cbn. by rewrite log_calls_nil.
  - cbn [for_each map].
    rewrite (bind_ok _ _ _ _ _ (call_ok x u σ (Hok x (list_elem_of_here _ _)))).
    rewrite IH; [by rewrite log_calls_app|].
    intros c Hc. apply Hok. by right.
Qed.

(** The loop when a subscriber raises: the subscribers after it are not
    called. *)
Lemma for_each_call_raise (before after : list Callable) c e (u : Dict) σ :
  (∀ c', c' ∈ before → call_subscriber c' u = None) →
  call_subscriber c u = Some e →
  for_each (before ++ c :: after) (λ c, call_ c u) σ
  = (log_calls (map (λ c, (c, u)) (before ++ [c])) σ, Raise e).
Proof.
  revert σ. induction before as [|x xs IH]; intros σ Hok Hraise.
  - cbn [app for_each map].
    by rewrite (bind_raise _ _ _ _ _ (call_raise c e u σ Hraise)).
  - cbn [app for_each map].
    rewrite (bind_ok _ _ _ _ _ (call_ok x u σ (Hok x (list_elem_of_here _ _)))).
    rewrite IH; [by rewrite log_calls_app| |done].
    intros c' Hc. apply Hok. by right.
Qed.

(** The first subscriber of a list that raises, if one does. *)
Lemma first_raise (xs : list Callable) (u : Dict) :
  (∀ c, c ∈ xs → call_subscriber c u = None)
  ∨ ∃ before c after e,
      xs = before ++ c :: after
      ∧ (∀ c', c' ∈ before → call_subscriber c' u = None)
      ∧ call_subscriber c u = Some e.
Proof.
  induction xs as [|x xs IH]; [left; intros c Hc; inversion Hc|].
  destruct (call_subscriber x u) as [e|] eqn:Hx.
  - right. exists [], x, xs, e. split_and!; [done| |done].
    intros c' Hc'. inversion Hc'.
  - destruct IH as [Hok|(before & c & after & e & -> & Hok & Hc)].
    + left. intros c [->|?]%elem_of_cons; auto.
    + right. exists (x :: before), c, after, e. split_and!; [done| |done].
      intros c' [->|?]%elem_of_cons; auto.
Qed.

(** In every case the calls of one loop are made to an initial segment of
    the list, all with the same argument. *)
Lemma for_each_call_prefix (xs : list Callable) (u : Dict) σ :
  ∃ n r, for_each xs (λ c, call_ c u) σ
         = (log_calls (map (λ c, (c, u)) (take n xs)) σ, r).
Proof.
  destruct (first_raise xs u) as [Hok|(before & c & after & e & -> & Hok & Hc)].
  - exists (length xs), (Ok tt). rewrite firstn_all. by apply for_each_call_ok.
  - exists (S (length before)), (Raise e).
    rewrite (for_each_call_raise _ _ _ e) by done.
    do 3 f_equal.
    replace (before ++ c :: after) with ((before ++ [c]) ++ after)
      by (by rewrite <- app_assoc).
    rewrite take_app_length'; [done|]. rewrite length_app. cbn. lia.
Qed.

(** The same with the length of the segment: the first member of the list
    is called in every case, and every member when all of them return. *)
Lemma for_each_call_segment (xs : list Callable) (u : Dict) σ :
  ∃ n r, for_each xs (λ c, call_ c u) σ
         = (log_calls (map (λ c, (c, u)) (take n xs)) σ, r)
         ∧ (xs ≠ [] → 0 < n)%nat
         ∧ ((∀ c, c ∈ xs → call_subscriber c u = None) →
            n = length xs ∧ r = Ok tt).
Proof.
  destruct (first_raise xs u) as [Hok|(before & c & after & e & -> & Hok & Hc)].
  - exists (length xs), (Ok tt). rewrite firstn_all. split_and!.
    + by apply for_each_call_ok.
    + destruct xs; [done|]. cbn. lia.
    + done.
  - exists (S (length before)), (Raise e). split_and!.
    + rewrite (for_each_call_raise _ _ _ e) by done.
      do 3 f_equal.
      replace (before ++ c :: after) with ((before ++ [c]) ++ after)
        by (by rewrite <- app_assoc).
      rewrite take_app_length'; [done|]. rewrite length_app. cbn. lia.
    + lia.
    + intros Hall. rewrite Hall in Hc; [done|].
      apply elem_of_app. right. by left.
Qed.

(** The union that [trigger] builds, stream by stream: the values of a
    stream are laid over what the streams before it gave. *)
Lemma dict_update_concat_items (d : Dict) (vs : list Dict) :
  dict_update d (concat (map (items PyVal) vs)) = foldl (λ acc v, v ∪ acc) d vs.
Proof using items_perm.
  revert d. induction vs as [|v vs IH]; intros d; [done|].
  cbn [map concat foldl]. by rewrite dict_update_app, dict_update_items, IH.
Qed.

Lemma trigger_union_fold σ streams :
  union_ σ streams = foldl (λ acc v, v ∪ acc) ∅ (map (value_ σ) streams).
Proof using items_perm.
  unfold trigger_union, dict_of_pairs.
  rewrite <- dict_update_concat_items. by rewrite <- list_fmap_compose.
Qed.

Lemma foldl_union_lookup_skip (d : Dict) (vs : list Dict) k :
  (∀ v, v ∈ vs → v !! k = None) →
  foldl (λ acc v, v ∪ acc) d vs !! k = d !! k.
Proof.
  revert d. induction vs as [|v vs IH]; intros d Hnone; [done|].
  cbn [foldl]. rewrite IH by (intros; apply Hnone; by right).
  rewrite lookup_union_r; [done|]. apply Hnone. by left.
Qed.

Lemma foldl_union_lookup_last (d : Dict) (before after : list Dict) b k x :
  b !! k = Some x →
  (∀ v, v ∈ after → v !! k = None) →
  foldl (λ acc v, v ∪ acc) d (before ++ b :: after) !! k = Some x.
Proof.
  intros Hb Hafter. rewrite foldl_app. cbn [foldl].
  rewrite foldl_union_lookup_skip by done.
  by apply lookup_union_Some_l.
Qed.

Lemma foldl_union_lookup_is_Some (d : Dict) (vs : list Dict) k :
  is_Some (foldl (λ acc v, v ∪ acc) d vs !! k)
  ↔ is_Some (d !! k) ∨ ∃ v, v ∈ vs ∧ is_Some (v !! k).
Proof.
  revert d. induction vs as [|v vs IH]; intros d.
  - cbn. split; [by left|]. intros [?|(v & Hv & _)]; [done|inversion Hv].
  - cbn [foldl]. rewrite IH, lookup_union_is_Some. split.
    + intros [[?|?]|(v' & ? & ?)].
      * right. exists v. split; [by left|done].
      * by left.
      * right. exists v'. split; [by right|done].
    + intros [?|(v' & [->|?]%elem_of_cons & ?)].
      * left. by right.
      * left. by left.
      * right. by exists v'.
Qed.

(** C2.  The dictionary that [trigger] hands to the subscribers is the
    union of the values of the streams: its keys are the keys of the values,
    and under a key it holds the value of the last stream of the list that
    has the key.  [trigger] delivers this dictionary: the calls it makes are
    calls with the union, to the subscribers in iteration order, starting
    with the first whenever there is a subscriber, and reaching every one of
    them when they all return.  Triggering [[A, B]] where both values have
    the key [k]: every call that is made passes a dictionary that holds the
    value of [B] under [k], a call is made when there is a subscriber, and
    every subscriber receives such a dictionary when they all return. *)
Theorem trigger_union_last_write_wins σ (streams : list loc) :
  (∀ k, is_Some (union_ σ streams !! k)
        ↔ ∃ s, s ∈ streams ∧ is_Some (value_ σ s !! k))
  ∧ (∀ before b after k x,
       streams = before ++ b :: after →
       value_ σ b !! k = Some x →
       (∀ s, s ∈ after → value_ σ s !! k = None) →
       union_ σ streams !! k = Some x)
  ∧ (∀ A B k xa xb,
       value_ σ A !! k = Some xa → value_ σ B !! k = Some xb →
       union_ σ [A; B] !! k = Some xb)
  ∧ (∃ n r,
       trigger_ streams σ
       = (log_calls (map (λ c, (c, union_ σ streams))
                         (take n (set_iter (trigger_subscribers σ streams)))) σ,
          r)
       ∧ (trigger_subscribers σ streams ≠ ∅ → 0 < n)%nat
       ∧ ((∀ c, c ∈ trigger_subscribers σ streams →
                call_subscriber c (union_ σ streams) = None) →
          n = length (set_iter (trigger_subscribers σ streams)) ∧ r = Ok tt))
  ∧ (∀ A B k xa xb,
       value_ σ A !! k = Some xa → value_ σ B !! k = Some xb →
       ∃ new r,
         Stream_trigger items set_iter call_subscriber [A; B] σ
         = (log_calls new σ, r)
         ∧ (∀ c d, (c, d) ∈ new → d !! k = Some xb)
         ∧ (trigger_subscribers σ [A; B] ≠ ∅ → new ≠ [])
         ∧ ((∀ c, c ∈ trigger_subscribers σ [A; B] →
                  call_subscriber c (union_ σ [A; B]) = None) →
            r = Ok tt
            ∧ ∀ c, c ∈ trigger_subscribers σ [A; B] →
                   ∃ d, (c, d) ∈ new ∧ d !! k = Some xb)).
Proof using items_perm set_iter_perm.
  assert (∀ A B k xa xb,
            value_ σ A !! k = Some xa → value_ σ B !! k = Some xb →
            union_ σ [A; B] !! k = Some xb) as Hlast.
  { intros A B k xa xb _ Hb. rewrite trigger_union_fold. cbn.
    by apply lookup_union_Some_l. }
  assert (∀ l, ∃ n r,
       trigger_ l σ
       = (log_calls (map (λ c, (c, union_ σ l))
                         (take n (set_iter (trigger_subscribers σ l)))) σ, r)
       ∧ (trigger_subscribers σ l ≠ ∅ → 0 < n)%nat
       ∧ ((∀ c, c ∈ trigger_subscribers σ l →
                call_subscriber c (union_ σ l) = None) →
          n = length (set_iter (trigger_subscribers σ l)) ∧ r = Ok tt))
    as Hrun.
  { intros l. rewrite Stream_trigger_loop.
    destruct (for_each_call_segment (set_iter (trigger_subscribers σ l))
                (union_ σ l) σ) as (n & r & Heq & Hpos & Hall).
    exists n, r. split_and!; [done| |].
    - intros Hne. apply Hpos. intros Hnil. apply Hne.
      apply set_eq. intros c. rewrite <- elem_of_set_iter, Hnil.
      split; [intros H; inversion H|intros H; by apply not_elem_of_empty in H].
    - intros Hok. apply Hall. intros c Hc. by apply Hok, elem_of_set_iter. }
  split_and!.
  - intros k. rewrite trigger_union_fold, foldl_union_lookup_is_Some.
    rewrite lookup_empty. split.
    + intros [[? [=]]|(v & (s & -> & Hs)%list_elem_of_fmap & Hv)]. by exists s.
    + intros (s & Hs & Hv). right. exists (value_ σ s). split; [|done].
      apply list_elem_of_fmap. by exists s.
  - intros before b after k x -> Hb Hafter.
    rewrite trigger_union_fold, fmap_app, fmap_cons.
    apply foldl_union_lookup_last; [done|].
    intros v (s & -> & Hs)%list_elem_of_fmap. by apply Hafter.
  - exact Hlast.
  - apply Hrun.
  - intros A B k xa xb Ha Hb.
    destruct (Hrun [A; B]) as (n & r & Heq & Hpos & Hall).
    pose proof (Hlast A B k xa xb Ha Hb) as Hk.
    eexists _, r. split; [exact Heq|]. split_and!.
    + intros c d (c' & [= -> ->] & _)%list_elem_of_fmap. exact Hk.
    + intros Hne Hnil. apply Hpos in Hne as Hn.
      apply fmap_nil_inv in Hnil.
      assert (set_iter (trigger_subscribers σ [A; B]) ≠ []) as Hord.
      { intros Hord. apply Hne. apply set_eq. intros c.
        rewrite <- elem_of_set_iter, Hord.
        split; [intros H; inversion H
               |intros H; by apply not_elem_of_empty in H]. }
      destruct (set_iter (trigger_subscribers σ [A; B])) as [|c0 l0]; [done|].
      destruct n; [lia|]. done.
    + intros Hok. destruct (Hall Hok) as [-> ->]. split; [done|].
      intros c Hc. exists (union_ σ [A; B]). split; [|exact Hk].
      rewrite firstn_all. apply list_elem_of_fmap. exists c.
      split; [done|]. by apply elem_of_set_iter.
Qed.

Lemma elem_of_concat {A} (x : A) (ls : list (list A)) :
  x ∈ concat ls ↔ ∃ l, x ∈ l ∧ l ∈ ls.
Proof.
  induction ls as [|l ls IH]; cbn.
  - split; [intros H; inversion H | intros (l & _ & H); inversion H].
  - rewrite elem_of_app, IH. split.
    + intros [?|(l' & ? & ?)]; [exists l | exists l']; split; try done;
        by constructor.
    + intros (l' & ? & [->|?]%elem_of_cons); [by left|right; by exists l'].
Qed.

Lemma calls_to_absent (u : Dict) (c : Callable) (l : list Callable) :
  c ∉ l → filter (λ e, e.1 = c) (map (λ c, (c, u)) l) = [].
Proof.
  induction l as [|x l IH]; intros Hc; [done|].
  apply not_elem_of_cons in Hc as [Hne Hc]. cbn [map].
  rewrite filter_cons. cbn [fst]. rewrite decide_False by done. by apply IH.
Qed.

(** C3.  When the subscribers return, [trigger] returns after it has called
    the members of [order], each with the union: [order] has no repetition,
    and its members are the callables found in [subscribers] or in
    [_hidden_subscribers] of one of the streams.  A callable registered on
    several of the streams, or several times on one, is called once. *)
Theorem trigger_calls_each_subscriber_once σ (streams : list loc) :
  (∀ c, c ∈ trigger_subscribers σ streams →
        call_subscriber c (union_ σ streams) = None) →
  ∃ order,
    trigger_ streams σ
    = (log_calls (map (λ c, (c, union_ σ streams)) order) σ, Ok tt)
    ∧ NoDup order
    ∧ (∀ c, c ∈ order
            ↔ ∃ s, s ∈ streams
                   ∧ (c ∈ lists σ !!! subscribers (objects σ !!! s)
                      ∨ c ∈ lists σ !!! _hidden_subscribers (objects σ !!! s)))
    ∧ (∀ c, c ∈ order →
            length (filter (λ e, e.1 = c)
                      (map (λ c, (c, union_ σ streams)) order)) = 1).
Proof using set_iter_perm.
  intros Hok. exists (set_iter (trigger_subscribers σ streams)).
  assert (NoDup (set_iter (trigger_subscribers σ streams))) as Hnd
    by apply NoDup_set_iter.
  split_and!.
  - rewrite Stream_trigger_loop. apply for_each_call_ok.
    intros c Hc. by apply Hok, elem_of_set_iter.
  - done.
  - intros c. rewrite elem_of_set_iter. unfold trigger_subscribers.
    rewrite elem_of_list_to_set, elem_of_concat. split.
    + intros (g & Hc & (s & -> & Hs)%list_elem_of_fmap).
      exists s. split; [done|]. by apply elem_of_app.
    + intros (s & Hs & Hc). exists (all_subscribers σ s). split.
      * by apply elem_of_app.
      * apply list_elem_of_fmap. by exists s.
  - intros c Hc. revert Hnd Hc. generalize (set_iter (trigger_subscribers σ streams)).
    intros l. induction l as [|x l IH]; intros Hnd Hc; [inversion Hc|].
    apply NoDup_cons in Hnd as [Hx Hnd]. cbn [map].
    rewrite filter_cons. cbn [fst]. destruct (decide (x = c)) as [->|Hne].
    + cbn [length]. by rewrite calls_to_absent.
    + apply IH; [done|]. apply elem_of_cons in Hc as [->|?]; done.
Qed.

(** C6.  When a subscriber raises, [trigger] raises the exception of the
    first subscriber in iteration order that raises: the subscribers before
    it and this subscriber were called, and no subscriber after it is
    called. *)
Theorem trigger_subscriber_exception_aborts σ (streams : list loc) c0 e0 :
  c0 ∈ trigger_subscribers σ streams →
  call_subscriber c0 (union_ σ streams) = Some e0 →
  ∃ before c after e,
    set_iter (trigger_subscribers σ streams) = before ++ c :: after
    ∧ call_subscriber c (union_ σ streams) = Some e
    ∧ trigger_ streams σ
      = (log_calls (map (λ c, (c, union_ σ streams)) (before ++ [c])) σ,
         Raise e)
    ∧ (∀ c', c' ∈ after → c' ∉ before ++ [c]).
Proof using set_iter_perm.
  intros Hin Hraise.
  destruct (first_raise (set_iter (trigger_subscribers σ streams))
              (union_ σ streams))
    as [Hok|(before & c & after & e & Heq & Hok & Hc)].
  - rewrite Hok in Hraise by (by apply elem_of_set_iter). done.
  - exists before, c, after, e. split_and!; [done|done| |].
    + rewrite Stream_trigger_loop, Heq. by apply for_each_call_raise.
    + pose proof (NoDup_set_iter (trigger_subscribers σ streams)) as Hnd.
      rewrite Heq in Hnd. apply NoDup_app in Hnd as (_ & Hdisj & Hnd').
      apply NoDup_cons in Hnd' as [Hc' _].
      intros c' Hafter [Hb|Hc2]%elem_of_app.
      * apply (Hdisj c' Hb). by right.
      * apply list_elem_of_singleton in Hc2 as ->. done.
Qed.

(** ** The constant flags *)

Lemma with_classes_id (f : gmap string (gmap string ParameterObj) →
                           gmap string (gmap string ParameterObj)) σ :
  f (classes σ) = classes σ → with_classes f σ = σ.
Proof. destruct σ. unfold with_classes. cbn. by intros ->. Qed.

Lemma set_flags_cons k b kbs ps :
  set_flags ((k, b) :: kbs) ps = set_flags kbs (alter (with_constant b) k ps).
Proof. done. Qed.

(** The flags after a list of assignments that names every Parameter object
    at most once. *)
Lemma set_flags_lookup kbs ps k :
  NoDup kbs.*1 →
  set_flags kbs ps !! k
  = match (list_to_map kbs : gmap string bool) !! k with
    | Some b => with_constant b <$> ps !! k
    | None => ps !! k
    end.
Proof.
  revert ps. induction kbs as [|[k' b'] kbs IH]; intros ps Hnd; [done|].
  rewrite fmap_cons in Hnd. cbn [fst] in Hnd.
  apply NoDup_cons in Hnd as [Hk' Hnd]. rewrite set_flags_cons, IH by done.
  cbn [list_to_map foldr fst snd]. destruct (decide (k' = k)) as [->|Hne].
  - rewrite lookup_insert_eq.
    apply not_elem_of_list_to_map_1 in Hk'. rewrite Hk'.
    by rewrite lookup_alter_eq.
  - rewrite lookup_insert_ne by done.
    rewrite lookup_alter_ne by done. done.
Qed.

Lemma with_constant_restore p :
  with_constant (p_constant p) (with_constant false p) = p.
Proof. by destruct p. Qed.

(** [for param in params: param.constant = False] clears every flag. *)
Lemma lift_flags (ps : gmap string ParameterObj) :
  set_flags (map (λ p, (p.1, false)) (items _ ps)) ps = with_constant false <$> ps.
Proof using items_perm.
  assert ((map (λ p : string * ParameterObj, (p.1, false)) (items _ ps)).*1
          = (items _ ps).*1) as Hfst
    by (rewrite <- list_fmap_compose; done).
  apply map_eq. intros k. rewrite lookup_fmap, set_flags_lookup
    by (rewrite Hfst; apply NoDup_fst_items).
  destruct (ps !! k) as [p|] eqn:Hk.
  - erewrite elem_of_list_to_map_1; [done|by rewrite Hfst; apply NoDup_fst_items|].
    apply list_elem_of_fmap. exists (k, p). split; [done|]. by apply elem_of_items.
  - rewrite (not_elem_of_list_to_map_1 _ k); [done|].
    rewrite Hfst, elem_of_fst_items, Hk. by intros [? [=]].
Qed.

Lemma zip_with_own_image {A B} (g : A → B) (l : list A) :
  zip l (map g l) = map (λ x, (x, g x)) l.
Proof. induction l as [|x l IH]; [done|]. cbn. by rewrite IH. Qed.

(** [for (param, const) in zip(params, constants): param.constant = const]
    gives every flag the value it had when [constants] was taken. *)
Lemma restore_flags (ps : gmap string ParameterObj) :
  set_flags (map (λ pc : string * ParameterObj * bool, (pc.1.1, pc.2))
               (zip (items _ ps) (map (λ p, p_constant p.2) (items _ ps))))
    (with_constant false <$> ps)
  = ps.
Proof using items_perm.
  rewrite zip_with_own_image, <- list_fmap_compose.
  match goal with |- set_flags ?L _ = _ => set (kbs := L) end.
  assert (kbs.*1 = (items _ ps).*1) as Hfst
    by (subst kbs; rewrite <- list_fmap_compose; done).
  apply map_eq. intros k. rewrite set_flags_lookup
    by (rewrite Hfst; apply NoDup_fst_items).
  rewrite lookup_fmap. destruct (ps !! k) as [p|] eqn:Hk.
  - rewrite (elem_of_list_to_map_1 kbs k (p_constant p)).
    + cbn. by rewrite with_constant_restore.
    + rewrite Hfst. apply NoDup_fst_items.
    + apply list_elem_of_fmap. exists (k, p). split; [done|].
      by apply elem_of_items.
  - rewrite (not_elem_of_list_to_map_1 _ k); [done|].
    rewrite Hfst, elem_of_fst_items, Hk. by intros [? [=]].
Qed.

(** A loop of flag assignments on the Parameter objects of one class. *)
Lemma for_each_set_constant {A} (l : list A) (f : A → string) (g : A → bool)
    cname σ :
  for_each l (λ x, set_constant cname (f x) (g x)) σ
  = (with_classes (alter (set_flags (map (λ x, (f x, g x)) l)) cname) σ, Ok tt).
Proof.
  revert σ. induction l as [|x l IH]; intros σ.
  - cbn. rewrite with_classes_id; [done|]. by apply alter_id.
  - cbn [for_each map]. erewrite bind_ok by reflexivity. rewrite IH.
    unfold with_classes. cbn. do 2 f_equal.
    by rewrite alter_alter_eq.
Qed.

(** ** Assignments to an instance *)

Local Abbreviation set_param_ := (set_param items).
Local Abbreviation update_ := (Stream_update items set_iter call_subscriber).

Lemma update_object_id self σ : update_object self (λ o, o) σ = σ.
Proof.
  destruct σ. unfold update_object, with_objects. cbn. f_equal.
  by apply alter_id.
Qed.

Lemma update_object_compose self f g σ :
  update_object self f (update_object self g σ) = update_object self (f ∘ g) σ.
Proof.
  unfold update_object, with_objects. cbn. f_equal. apply alter_alter_eq.
Qed.

Lemma cls_assign ps k v o : cls (assign ps k v o) = cls o.
Proof. unfold assign. by destruct (ps !! k). Qed.

Lemma cls_assign_all ps kvs o : cls (assign_all ps kvs o) = cls o.
Proof.
  revert o. induction kvs as [|kv kvs IH]; intros o; [done|].
  cbn. unfold assign_all in IH. by rewrite IH, cls_assign.
Qed.

(** An assignment to an instance leaves the class of every instance, and so
    its Parameter objects, as they were. *)
Lemma params_update_object self f σ self' :
  (∀ o, cls (f o) = cls o) →
  params (update_object self f σ) self' = params σ self'.
Proof.
  intros Hcls. unfold params, class_params, update_object. cbn. f_equal.
  rewrite lookup_total_alter. case_decide as Heq; [subst self'|done].
  rewrite lookup_total_alt. destruct (objects σ !! self); cbn; [|done].
  apply Hcls.
Qed.

(** An assignment while every flag of the class is lifted: it is refused
    for a declared field and a value outside its type, and for nothing
    else. *)
Lemma setattr_lifted self k v σ :
  (∀ k' p, params σ self !! k' = Some p → p_constant p = false) →
  setattr self k v σ
  = if rejects (params σ self) k v
    then (σ, Raise (ValueError "Parameter value is not of the declared type"))
    else (update_object self (assign (params σ self) k v) σ, Ok tt).
Proof.
  intros Hlift. unfold setattr. erewrite bind_ok by reflexivity.
  unfold rejects, assign. destruct (params σ self !! k) as [p|] eqn:Hk; [|done].
  destruct (accepts (p_kind p) v); cbn; [|done].
  by rewrite (Hlift k p Hk).
Qed.

Lemma set_param_lifted_ok self kvs σ :
  (∀ k' p, params σ self !! k' = Some p → p_constant p = false) →
  (∀ kv, kv ∈ kvs → rejects (params σ self) kv.1 kv.2 = false) →
  for_each kvs (λ kv, setattr self kv.1 kv.2) σ
  = (update_object self (assign_all (params σ self) kvs) σ, Ok tt).
Proof.
  revert σ. induction kvs as [|[k v] kvs IH]; intros σ Hlift Hok.
  - cbn. by rewrite update_object_id.
  - cbn [for_each fst snd]. erewrite bind_ok; cycle 1.
    { rewrite setattr_lifted by done.
      pose proof (Hok (k, v) (list_elem_of_here _ _)) as Hkv. cbn in Hkv.
      rewrite Hkv. reflexivity. }
    assert (params (update_object self (assign (params σ self) k v) σ) self
            = params σ self) as Hps
      by (apply params_update_object; intros; apply cls_assign).
    rewrite IH; rewrite ?Hps; [|done|intros; apply Hok; by right].
    by rewrite update_object_compose.
Qed.

Lemma set_param_lifted_raise self kvs σ k v :
  (∀ k' p, params σ self !! k' = Some p → p_constant p = false) →
  (k, v) ∈ kvs → rejects (params σ self) k v = true →
  ∃ F, for_each kvs (λ kv, setattr self kv.1 kv.2) σ
       = (update_object self F σ,
          Raise (ValueError "Parameter value is not of the declared type"))
       ∧ ∀ o, cls (F o) = cls o.
Proof.
  revert σ. induction kvs as [|[k0 v0] kvs IH]; intros σ Hlift Hin Hbad.
  { inversion Hin. }
  cbn [for_each fst snd].
  destruct (rejects (params σ self) k0 v0) eqn:Hr.
  - exists (λ o, o). split; [|done].
    erewrite bind_raise; [reflexivity|].
    rewrite setattr_lifted, Hr by done. by rewrite update_object_id.
  - assert ((k, v) ∈ kvs) as Hin'.
    { apply elem_of_cons in Hin as [[= -> ->]|?]; [congruence|done]. }
    assert (params (update_object self (assign (params σ self) k0 v0) σ) self
            = params σ self) as Hps
      by (apply params_update_object; intros; apply cls_assign).
    destruct (IH (update_object self (assign (params σ self) k0 v0) σ))
      as (F & HF & Hcls); rewrite ?Hps; try done.
    exists (F ∘ assign (params σ self) k0 v0). split.
    + erewrite bind_ok; cycle 1.
      { rewrite setattr_lifted, Hr by done. reflexivity. }
      by rewrite HF, update_object_compose.
    + intros o. cbn. by rewrite Hcls, cls_assign.
Qed.

(** ** update *)

Lemma update_object_ext self f g σ :
  (∀ o, f o = g o) → update_object self f σ = update_object self g σ.
Proof.
  intros Hfg. unfold update_object, with_objects. f_equal.
  apply alter_ext. auto.
Qed.

Lemma params_lift_constants self σ :
  params (lift_constants self σ) self = with_constant false <$> params σ self.
Proof.
  unfold params, class_params, lift_constants. cbn.
  generalize (cls (objects σ !!! self)). intros cname.
  rewrite lookup_total_alter_eq, lookup_total_alt.
  destruct (classes σ !! cname); cbn; [done|].
  by rewrite fmap_empty.
Qed.

Lemma lift_constants_lifted self σ k p :
  params (lift_constants self σ) self !! k = Some p → p_constant p = false.
Proof.
  rewrite params_lift_constants, lookup_fmap.
  destruct (params σ self !! k); intros [= <-]; done.
Qed.

Lemma rejects_with_constant b ps k v :
  rejects (with_constant b <$> ps) k v = rejects ps k v.
Proof. unfold rejects. rewrite lookup_fmap. by destruct (ps !! k). Qed.

Lemma assign_with_constant b ps k v o :
  assign (with_constant b <$> ps) k v o = assign ps k v o.
Proof. unfold assign. rewrite lookup_fmap. by destruct (ps !! k). Qed.

Lemma assign_all_with_constant b ps kvs o :
  assign_all (with_constant b <$> ps) kvs o = assign_all ps kvs o.
Proof.
  revert o. induction kvs as [|kv kvs IH]; intros o; [done|].
  cbn. unfold assign_all in IH. by rewrite IH, assign_with_constant.
Qed.

(** [update] lifts the flags, and runs the rest in the lifted store. *)
Lemma Stream_update_lift self trigger kwargs σ :
  update_ self trigger kwargs σ
  = (set_param_ self kwargs ;;;
     for_each (zip (items _ (params σ self))
                   (map (λ p, p_constant p.2) (items _ (params σ self))))
              (λ pc, set_constant (cls (objects σ !!! self)) pc.1.1 pc.2) ;;;
     if trigger then trigger_ [self] else ret tt) (lift_constants self σ).
Proof using items_perm.
  unfold Stream_update. erewrite bind_ok by reflexivity.
  erewrite bind_ok; [reflexivity|].
  rewrite (for_each_set_constant _ fst (λ _, false)). f_equal.
  unfold lift_constants, with_classes. f_equal.
  apply alter_ext. intros ps Hps.
  assert (params σ self = ps) as ->
    by (unfold params, class_params; by rewrite (lookup_total_correct _ _ _ Hps)).
  apply lift_flags.
Qed.

(** The restoring loop, run after assignments [F] to the instance, gives
    back the flags that [update] found. *)
Lemma restore_after_assignments self F σ :
  for_each (zip (items _ (params σ self))
                (map (λ p, p_constant p.2) (items _ (params σ self))))
           (λ pc, set_constant (cls (objects σ !!! self)) pc.1.1 pc.2)
           (update_object self F (lift_constants self σ))
  = (update_object self F σ, Ok tt).
Proof using items_perm.
  rewrite (for_each_set_constant _ (λ pc, pc.1.1) snd). f_equal.
  unfold update_object, lift_constants, with_objects, with_classes. cbn.
  f_equal. rewrite alter_alter_eq. apply alter_id. intros ps Hps.
  assert (params σ self = ps) as ->
    by (unfold params, class_params; by rewrite (lookup_total_correct _ _ _ Hps)).
  cbn. apply restore_flags.
Qed.

(** [update] when every supplied value is accepted: the instance has all the
    assignments, every flag is as before, and the trigger protocol, if
    asked for, runs in that store. *)
Lemma Stream_update_accepted self trigger kwargs σ :
  (∀ k v, kwargs !! k = Some v → rejects (params σ self) k v = false) →
  update_ self trigger kwargs σ
  = (if trigger then trigger_ [self] else ret tt)
      (update_object self (assign_all (params σ self) (items _ kwargs)) σ).
Proof using items_perm.
  intros Hok. rewrite Stream_update_lift.
  erewrite bind_ok; cycle 1.
  { unfold set_param. apply set_param_lifted_ok.
    - apply lift_constants_lifted.
    - intros [k v] Hkv%elem_of_items. rewrite params_lift_constants.
      rewrite rejects_with_constant. by apply Hok. }
  rewrite params_lift_constants.
  rewrite (update_object_ext _ _ (assign_all (params σ self) (items _ kwargs)))
    by apply assign_all_with_constant.
  by erewrite bind_ok by apply restore_after_assignments.
Qed.

(** [update] when a supplied value is refused: the exception of [set_param]
    leaves [update] before the restoring loop, and every flag of the class
    stays lifted. *)
Lemma Stream_update_refused self trigger kwargs σ k v :
  kwargs !! k = Some v → rejects (params σ self) k v = true →
  ∃ F, update_ self trigger kwargs σ
       = (update_object self F (lift_constants self σ),
          Raise (ValueError "Parameter value is not of the declared type"))
       ∧ ∀ o, cls (F o) = cls o.
Proof using items_perm.
  intros Hkv Hbad. rewrite Stream_update_lift.
  destruct (set_param_lifted_raise self (items _ kwargs)
              (lift_constants self σ) k v) as (F & HF & Hcls).
  - apply lift_constants_lifted.
  - by apply elem_of_items.
  - by rewrite params_lift_constants, rejects_with_constant.
  - exists F. split; [|done]. by erewrite bind_raise by exact HF.
Qed.

(** What a sequence of accepted assignments leaves on the instance. *)
Lemma param_values_assign_all ps kvs o :
  param_values (assign_all ps kvs o)
  = dict_update (param_values o) (filter (λ kv, is_Some (ps !! kv.1)) kvs).
Proof.
  revert o. induction kvs as [|[k v] kvs IH]; intros o; [done|].
  unfold assign_all in *. cbn [foldl fst snd]. rewrite IH, filter_cons.
  unfold assign. cbn [fst]. destruct (ps !! k) eqn:Hk.
  - by rewrite decide_True by done.
  - rewrite decide_False; [done|]. by intros [? [=]].
Qed.

Lemma attributes_assign_all ps kvs o :
  attributes (assign_all ps kvs o)
  = dict_update (attributes o) (filter (λ kv, ps !! kv.1 = None) kvs).
Proof.
  revert o. induction kvs as [|[k v] kvs IH]; intros o; [done|].
  unfold assign_all in *. cbn [foldl fst snd]. rewrite IH, filter_cons.
  unfold assign. cbn [fst]. destruct (ps !! k) eqn:Hk.
  - by rewrite decide_False by done.
  - by rewrite decide_True by done.
Qed.

Lemma shape_assign_all ps kvs o :
  cls (assign_all ps kvs o) = cls o
  ∧ subscribers (assign_all ps kvs o) = subscribers o
  ∧ preprocessors (assign_all ps kvs o) = preprocessors o
  ∧ _hidden_subscribers (assign_all ps kvs o) = _hidden_subscribers o
  ∧ mapping (assign_all ps kvs o) = mapping o.
Proof.
  revert o. induction kvs as [|[k v] kvs IH]; intros o; [done|].
  unfold assign_all in *. cbn [foldl fst snd].
  destruct (IH (assign ps k v o)) as (-> & -> & -> & -> & ->).
  unfold assign. by destruct (ps !! k).
Qed.

Lemma param_values_assign_items ps (kwargs : Dict) o k v :
  kwargs !! k = Some v → is_Some (ps !! k) →
  param_values (assign_all ps (items _ kwargs) o) !! k = Some v.
Proof using items_perm.
  intros Hkv Hk. rewrite param_values_assign_all.
  apply dict_update_lookup_unique.
  - apply list_elem_of_filter. split; [done|]. by apply elem_of_items.
  - intros v' [_ Hv']%list_elem_of_filter. apply elem_of_items in Hv'.
    congruence.
Qed.

Lemma param_values_assign_items_other ps (kwargs : Dict) o k :
  kwargs !! k = None →
  param_values (assign_all ps (items _ kwargs) o) !! k = param_values o !! k.
Proof using items_perm.
  intros Hk. rewrite param_values_assign_all.
  apply dict_update_lookup_notin.
  intros ([k' v'] & -> & [_ Hin]%list_elem_of_filter)%list_elem_of_fmap.
  apply elem_of_items in Hin. cbn in Hk. congruence.
Qed.


(** The instance [self] after an assignment to it. *)
Lemma lookup_update_object self F σ o :
  objects σ !! self = Some o → objects (update_object self F σ) !!! self = F o.
Proof.
  intros Ho. unfold update_object. cbn.
  by rewrite lookup_total_alter_eq, Ho.
Qed.

(** ** Renaming the keys of a list of pairs *)

Lemma NoDup_fst_unique {V} (kvs : list (string * V)) k v v' :
  NoDup kvs.*1 → (k, v) ∈ kvs → (k, v') ∈ kvs → v = v'.
Proof.
  intros Hnd Hv Hv'.
  pose proof (elem_of_list_to_map_1 (M := gmap string) kvs k v Hnd Hv) as H1.
  pose proof (elem_of_list_to_map_1 (M := gmap string) kvs k v' Hnd Hv') as H2.
  congruence.
Qed.

Lemma renamed_pairs_lookup_Some {V} (f : string → string)
    (kvs : list (string * V)) k' v :
  dict_of_pairs (map (λ kv, (f kv.1, kv.2)) kvs) !! k' = Some v →
  ∃ k, (k, v) ∈ kvs ∧ f k = k'.
Proof.
  intros [H|H]%dict_update_lookup_Some; [|by rewrite lookup_empty in H].
  apply list_elem_of_fmap in H as ([k v0] & [= -> ->] & H). by exists k.
Qed.

Lemma renamed_pairs_lookup_is_Some {V} (f : string → string)
    (kvs : list (string * V)) k :
  k ∈ kvs.*1 →
  is_Some (dict_of_pairs (map (λ kv, (f kv.1, kv.2)) kvs) !! f k).
Proof.
  intros ([k0 v] & -> & Hin)%list_elem_of_fmap.
  destruct (dict_update_lookup_is_Some (∅ : gmap string V)
              (map (λ kv, (f kv.1, kv.2)) kvs) (f k0)) as (v' & _ & Hv').
  - rewrite <- list_fmap_compose. apply list_elem_of_fmap. by exists (k0, v).
  - by exists v'.
Qed.

Lemma renamed_pairs_lookup_inj {V} (f : string → string)
    (kvs : list (string * V)) k v :
  NoDup kvs.*1 → (k, v) ∈ kvs →
  (∀ k2, k2 ∈ kvs.*1 → f k2 = f k → k2 = k) →
  dict_of_pairs (map (λ kv, (f kv.1, kv.2)) kvs) !! f k = Some v.
Proof.
  intros Hnd Hin Hinj.
  destruct (renamed_pairs_lookup_is_Some f kvs k) as [v' Hv'].
  { apply list_elem_of_fmap. by exists (k, v). }
  rewrite Hv'. f_equal.
  apply renamed_pairs_lookup_Some in Hv' as (k2 & Hk2 & Heq).
  assert (k2 = k) as ->.
  { apply Hinj; [|done]. apply list_elem_of_fmap. by exists (k2, v'). }
  by eapply NoDup_fst_unique.
Qed.

(** ** value *)

Lemma NoDup_fst_filter {V} (P : string * V → Prop) `{∀ x, Decision (P x)}
    (kvs : list (string * V)) :
  NoDup kvs.*1 → NoDup (filter P kvs).*1.
Proof.
  induction kvs as [|kv kvs IH]; [done|].
  rewrite fmap_cons. intros [Hkv Hnd]%NoDup_cons. rewrite filter_cons.
  destruct (decide (P kv)); [|by apply IH].
  rewrite fmap_cons. apply NoDup_cons. split; [|by apply IH].
  intros (kv' & Heq & [_ Hin]%list_elem_of_filter)%list_elem_of_fmap.
  apply Hkv. apply list_elem_of_fmap. by exists kv'.
Qed.

(** The pairs of [get_param_values]: one for every declared field, with the
    value set on the instance or else the default. *)
Lemma elem_of_get_param_values σ self k v :
  (k, v) ∈ get_param_values items σ self
  ↔ ∃ p, params σ self !! k = Some p
         ∧ v = default (p_default p) (param_values (objects σ !!! self) !! k).
Proof using items_perm.
  unfold get_param_values. rewrite list_elem_of_fmap. split.
  - intros ([k' p] & [= -> ->] & Hin%elem_of_items). by exists p.
  - intros (p & Hp & ->). exists (k, p). split; [done|]. by apply elem_of_items.
Qed.

Lemma NoDup_fst_get_param_values σ self :
  NoDup (get_param_values items σ self).*1.
Proof using items_perm.
  unfold get_param_values. rewrite <- list_fmap_compose.
  apply NoDup_fst_items.
Qed.

(** C5.  [value] is obtained from the fields of the instance other than
    [name] (a field is a declared name with the value set on the instance,
    or else its default): every key is sent through [mapping], a key that
    [mapping] does not have staying as it is, and the preprocessors are
    then applied in the order of the list, each to the result of the one
    before.  Every entry of the remapped dictionary is a field under its
    remapped key, every field has its remapped key in it, and a field whose
    remapped key no other field shares has its value there.  The read
    leaves the store as it is, so two reads in a row return the same
    dictionary. *)
Theorem value_remaps_then_preprocesses σ (self : loc) :
  let o := objects σ !!! self in
  let field := λ k v,
    k ≠ "name"
    ∧ ∃ p, params σ self !! k = Some p
           ∧ v = default (p_default p) (param_values o !! k) in
  let remap := λ k, dict_get (mapping o) k k in
  (∀ k, mapping o !! k = None → remap k = k)
  ∧ (∃ remapped : Dict,
       (∀ k' v, remapped !! k' = Some v → ∃ k, field k v ∧ remap k = k')
       ∧ (∀ k v, field k v → is_Some (remapped !! remap k))
       ∧ (∀ k v, field k v →
                 (∀ k2 v2, field k2 v2 → remap k2 = remap k → k2 = k) →
                 remapped !! remap k = Some v)
       ∧ value_ σ self
         = foldl (λ d p, Preprocessor_call items p d) remapped
                 (pre_lists σ !!! preprocessors o))
  ∧ Stream_value items self σ = (σ, Ok (value_ σ self))
  ∧ (v1 <- Stream_value items self ;;
     v2 <- Stream_value items self ;;
     ret (v1, v2)) σ
    = (σ, Ok (value_ σ self, value_ σ self)).
Proof using items_perm.
  intros o field remap.
  set (fields := filter (λ kv : string * PyVal, kv.1 ≠ "name")
                        (get_param_values items σ self)).
  assert (∀ k v, (k, v) ∈ fields ↔ field k v) as Hfields.
  { intros k v. unfold fields, field.
    rewrite list_elem_of_filter, elem_of_get_param_values. done. }
  assert (NoDup fields.*1) as Hnd
    by apply NoDup_fst_filter, NoDup_fst_get_param_values.
  split_and!.
  - intros k Hk. unfold remap, dict_get. by rewrite Hk.
  - exists (dict_of_pairs (map (λ kv, (remap kv.1, kv.2)) fields)).
    split_and!.
    + intros k' v (k & Hk%Hfields & Hr)%renamed_pairs_lookup_Some.
      by exists k.
    + intros k v Hk%Hfields. apply (renamed_pairs_lookup_is_Some remap).
      apply list_elem_of_fmap. by exists (k, v).
    + intros k v Hk%Hfields Hinj.
      apply (renamed_pairs_lookup_inj remap); [done|done|].
      intros k2 ([k2' v2] & -> & Hin%Hfields)%list_elem_of_fmap.
      by apply (Hinj k2' v2).
    + done.
  - done.
  - done.
Qed.

(** ** The claims about update *)

Lemma Stream_trigger_logs streams σ :
  ∃ new r, trigger_ streams σ = (log_calls new σ, r).
Proof.
  rewrite Stream_trigger_loop.
  destruct (for_each_call_prefix (set_iter (trigger_subscribers σ streams))
              (union_ σ streams) σ) as (n & r & ->).
  eauto.
Qed.

(** When every supplied value is accepted, [update] leaves the Parameter
    objects of every class, and so every constant flag, as they were. *)
Lemma Stream_update_accepted_flags self trigger kwargs σ :
  (∀ k v, kwargs !! k = Some v → rejects (params σ self) k v = false) →
  classes (update_ self trigger kwargs σ).1 = classes σ.
Proof using items_perm.
  intros Hok. rewrite Stream_update_accepted by done.
  destruct trigger; [|done].
  destruct (Stream_trigger_logs [self]
              (update_object self
                 (assign_all (params σ self) (items _ kwargs)) σ))
    as (new & r & ->).
  done.
Qed.

(** C1 (where the code departs from the claim).  When [set_param] refuses
    one of the supplied values, [update] raises the exception and the
    restoring loop is not run: after the call every field of the class has
    its constant flag lifted, so a field that was constant before the call
    is not constant after it. *)
Theorem update_refused_leaves_constants_lifted σ (self : loc) trigger
    (kwargs : Dict) k v :
  kwargs !! k = Some v →
  rejects (params σ self) k v = true →
  ∃ σ' e,
    update_ self trigger kwargs σ = (σ', Raise e)
    ∧ params σ' self = with_constant false <$> params σ self
    ∧ (∀ k' p, params σ self !! k' = Some p → p_constant p = true →
               ∃ p', params σ' self !! k' = Some p'
                     ∧ p_constant p' ≠ p_constant p).
Proof using items_perm.
  intros Hkv Hbad.
  destruct (Stream_update_refused self trigger kwargs σ k v Hkv Hbad)
    as (F & -> & Hcls).
  eexists _, _. split; [done|].
  assert (params (update_object self F (lift_constants self σ)) self
          = with_constant false <$> params σ self) as Hps
    by (by rewrite params_update_object, params_lift_constants).
  split; [done|]. intros k' p Hp Hconst.
  exists (with_constant false p). rewrite Hps, lookup_fmap, Hp. split; [done|].
  rewrite Hconst. done.
Qed.







(** ** The constructor *)

Local Abbreviation init_ := (Stream_init items).

Lemma init_param_run self k v σ :
  init_param self k v σ
  = if rejects (params σ self) k v
    then (σ, Raise (ValueError "Parameter value is not of the declared type"))
    else (update_object self (assign (params σ self) k v) σ, Ok tt).
Proof.
  unfold init_param. erewrite bind_ok by reflexivity.
  unfold rejects, assign. destruct (params σ self !! k) as [p|]; [|done].
  by destruct (accepts (p_kind p) v).
Qed.

Lemma same_shape_assign ps k v : same_shape (assign ps k v).
Proof. intros o. unfold assign. by destruct (ps !! k). Qed.

Lemma same_shape_compose F G : same_shape F → same_shape G → same_shape (F ∘ G).
Proof.
  intros HF HG o. cbn.
  destruct (HF (G o)) as (-> & -> & -> & -> & ->). apply HG.
Qed.

Lemma Parameterized_init_ok self kvs σ :
  (∀ kv, kv ∈ kvs → rejects (params σ self) kv.1 kv.2 = false) →
  for_each kvs (λ kv, init_param self kv.1 kv.2) σ
  = (update_object self (assign_all (params σ self) kvs) σ, Ok tt).
Proof.
  revert σ. induction kvs as [|[k v] kvs IH]; intros σ Hok.
  - cbn. by rewrite update_object_id.
  - cbn [for_each fst snd]. erewrite bind_ok; cycle 1.
    { rewrite init_param_run.
      pose proof (Hok (k, v) (list_elem_of_here _ _)) as Hkv. cbn in Hkv.
      rewrite Hkv. reflexivity. }
    assert (params (update_object self (assign (params σ self) k v) σ) self
            = params σ self) as Hps
      by (apply params_update_object; intros; apply cls_assign).
    rewrite IH; rewrite ?Hps; [|intros; apply Hok; by right].
    by rewrite update_object_compose.
Qed.


Lemma new_list_run σ :
  new_list σ
  = (with_lists (insert (fresh ({[default_subscribers]} ∪ dom (lists σ))) []) σ,
     Ok (fresh ({[default_subscribers]} ∪ dom (lists σ)))).
Proof. done. Qed.

Lemma new_uuid_run σ : new_uuid σ = (with_uuids Pos.succ σ, Ok (uuids σ)).
Proof. done. Qed.

Lemma new_object_run o σ :
  new_object o σ
  = (with_objects (insert (fresh (dom (objects σ))) o) σ,
     Ok (fresh (dom (objects σ)))).
Proof. done. Qed.

(** [choose_mapping] reads the store and leaves it as it is. *)
Lemma choose_mapping_store cname m σ :
  ∃ r, choose_mapping items cname m σ = (σ, r).
Proof.
  unfold choose_mapping. erewrite bind_ok by reflexivity.
  destruct m; [by eexists..|]. case_decide; by eexists.
Qed.






(** * Further properties of the module *)

(** ** Rename *)

Lemma dict_of_items (d : Dict) : dict_of_pairs (items _ d) = d.
Proof using items_perm.
  unfold dict_of_pairs. by rewrite dict_update_items, (right_id_L ∅ (∪)).
Qed.

Lemma dict_update_size {V} (d : gmap string V) (kvs : list (string * V)) :
  (size (dict_update d kvs) ≤ size d + length kvs)%nat.
Proof using Type.
  induction kvs as [|[k v] kvs IH] using rev_ind; [cbn; lia|].
  rewrite dict_update_snoc, length_app, map_size_insert. cbn.
  destruct (dict_update d kvs !! k); cbn; lia.
Qed.

Lemma length_items {V} (d : gmap string V) : length (items V d) = size d.
Proof using items_perm. by rewrite items_perm, length_map_to_list. Qed.

(** X1.  [Rename] returns its input when none of the keys of the input has
    an alias in the table; so does [Rename()] with no alias at all. *)
Theorem Rename_call_no_alias (table : gmap string string) (params : Dict) :
  (∀ k, is_Some (params !! k) → table !! k = None) →
  Rename_call items table params = params.
Proof using items_perm.
  intros Hnone. unfold Rename_call.
  rewrite <- (dict_of_items params) at 2. f_equal.
  rewrite <- (list_fmap_id (items _ params)) at 2.
  apply list_fmap_ext. intros i [k v] Hi. cbn. f_equal.
  unfold dict_get. rewrite Hnone; [done|].
  apply elem_of_fst_items, list_elem_of_fmap. exists (k, v). split; [done|].
  by eapply list_elem_of_lookup_2.
Qed.

(** X2.  The keys of the result of [Rename] are the aliases of the keys of
    the input, and the result never has more entries than the input. *)
Theorem Rename_call_keys (table : gmap string string) (params : Dict) :
  dom (Rename_call items table params)
  = set_map (λ k, dict_get table k k) (dom params)
  ∧ (size (Rename_call items table params) ≤ size params)%nat.
Proof using items_perm.
  split.
  - unfold Rename_call.
    apply set_eq. intros k'. rewrite elem_of_dom, elem_of_map. split.
    + intros [v Hv].
      apply (renamed_lookup_Some (λ k, dict_get table k k)) in Hv
        as (k & Hk & <-).
      exists k. split; [done|]. apply elem_of_dom. by exists v.
    + intros (k & -> & Hk%elem_of_dom).
      by apply (renamed_lookup_is_Some (λ k, dict_get table k k)).
  - unfold Rename_call, dict_of_pairs.
    etransitivity; [apply dict_update_size|].
    by rewrite map_size_empty, length_map, length_items.
Qed.

(** X3.  Renaming back: when no two keys of the input have the same alias
    and a second table sends every alias back to its key, [Rename] with the
    second table undoes [Rename] with the first. *)
Theorem Rename_call_round_trip (table back : gmap string string)
    (params : Dict) :
  let alias := λ k, dict_get table k k in
  (∀ k1 k2, is_Some (params !! k1) → is_Some (params !! k2) →
            alias k1 = alias k2 → k1 = k2) →
  (∀ k, is_Some (params !! k) → dict_get back (alias k) (alias k) = k) →
  Rename_call items back (Rename_call items table params) = params.
Proof using items_perm.
  intros alias Hinj Hback.
  set (renamed := Rename_call items table params).
  assert (∀ k v, params !! k = Some v → renamed !! alias k = Some v) as Hfwd.
  { intros k v Hk. unfold renamed, Rename_call.
    apply (renamed_lookup_inj alias); [done|].
    intros k2 Hk2 Heq. apply Hinj; [done|by exists v|done]. }
  assert (∀ k' v, renamed !! k' = Some v →
                  ∃ k, params !! k = Some v ∧ alias k = k') as Hfrom
    by (intros k' v; unfold renamed, Rename_call;
        apply (renamed_lookup_Some alias)).
  assert (∀ k v, params !! k = Some v →
                 Rename_call items back renamed !! k = Some v) as Hthere.
  { intros k v Hk. rewrite <- (Hback k) at 1 by (by exists v).
    unfold Rename_call at 1.
    apply (renamed_lookup_inj (λ k, dict_get back k k)); [by apply Hfwd|].
    intros k2 [v2 (k0 & Hk0 & <-)%Hfrom] Heq.
    rewrite !Hback in Heq by (by eexists). by subst. }
  apply map_eq. intros k.
  destruct (params !! k) as [v|] eqn:Hk; [by apply Hthere|].
  destruct (Rename_call items back renamed !! k) as [v|] eqn:Hres; [|done].
  unfold Rename_call at 1 in Hres.
  apply (renamed_lookup_Some (λ k, dict_get back k k)) in Hres
    as (k1 & (k0 & Hk0 & <-)%Hfrom & Heq).
  rewrite Hback in Heq by (by eexists). congruence.
Qed.

(** ** trigger *)

Lemma value_log_calls new σ self : value_ (log_calls new σ) self = value_ σ self.
Proof using Type. done. Qed.

Lemma elem_of_trigger_subscribers σ streams c :
  c ∈ trigger_subscribers σ streams
  ↔ ∃ s, s ∈ streams ∧ c ∈ all_subscribers σ s.
Proof using Type.
  unfold trigger_subscribers. rewrite elem_of_list_to_set, elem_of_concat.
  split.
  - intros (g & Hc & (s & -> & Hs)%list_elem_of_fmap). by exists s.
  - intros (s & Hs & Hc). exists (all_subscribers σ s). split; [done|].
    apply list_elem_of_fmap. by exists s.
Qed.

Lemma NoDup_take {A} (l : list A) n : NoDup l → NoDup (take n l).
Proof using Type.
  intros Hnd. rewrite <- (take_drop n l) in Hnd.
  by apply NoDup_app in Hnd as (? & _ & _).
Qed.

(** X4.  [trigger] changes nothing but the record of calls: the classes,
    the instances, the list objects and the registry are as before, and so
    is the value of every stream.  Whether or not a subscriber raises, the
    calls it makes go to pairwise distinct callables, each of them a
    subscriber or hidden subscriber of one of the streams, each with the
    union. *)
Theorem trigger_only_calls_subscribers σ (streams : list loc) :
  ∃ new r,
    trigger_ streams σ = (log_calls new σ, r)
    ∧ classes (log_calls new σ) = classes σ
    ∧ objects (log_calls new σ) = objects σ
    ∧ lists (log_calls new σ) = lists σ
    ∧ pre_lists (log_calls new σ) = pre_lists σ
    ∧ registry (log_calls new σ) = registry σ
    ∧ (∀ s, value_ (log_calls new σ) s = value_ σ s)
    ∧ NoDup new.*1
    ∧ (∀ c d, (c, d) ∈ new →
              d = union_ σ streams
              ∧ ∃ s, s ∈ streams ∧ c ∈ all_subscribers σ s).
Proof using set_iter_perm.
  rewrite Stream_trigger_loop.
  destruct (for_each_call_prefix (set_iter (trigger_subscribers σ streams))
              (union_ σ streams) σ) as (n & r & ->).
  eexists _, r. split_and!; try done.
  - rewrite <- list_fmap_compose. cbn. rewrite list_fmap_id.
    apply NoDup_take, NoDup_set_iter.
  - intros c d (c' & [= -> ->] & Hc%elem_of_take)%list_elem_of_fmap.
    split; [done|]. destruct Hc as (i & Hc & _).
    apply list_elem_of_lookup_2 in Hc.
    by apply elem_of_set_iter, elem_of_trigger_subscribers in Hc.
Qed.

Lemma set_iter_empty : set_iter ∅ = [].
Proof using set_iter_perm.
  apply Permutation_nil_r. by rewrite set_iter_perm, elements_empty.
Qed.

(** X5.  [trigger] on streams none of which has a subscriber or a hidden
    subscriber calls nobody and leaves the store as it is; this is so for
    the empty list of streams. *)
Theorem trigger_without_subscribers σ (streams : list loc) :
  (∀ s, s ∈ streams → all_subscribers σ s = []) →
  trigger_ streams σ = (σ, Ok tt).
Proof using set_iter_perm.
  intros Hnone. rewrite Stream_trigger_loop.
  assert (trigger_subscribers σ streams = ∅) as ->.
  { apply set_eq. intros c. rewrite elem_of_trigger_subscribers. split.
    - intros (s & Hs & Hc). rewrite (Hnone s Hs) in Hc. inversion Hc.
    - intros Hc. by apply not_elem_of_empty in Hc. }
  by rewrite set_iter_empty.
Qed.

Lemma foldl_union_lookup_Some (d : Dict) (vs : list Dict) k x :
  foldl (λ acc v, v ∪ acc) d vs !! k = Some x →
  d !! k = Some x ∨ ∃ v, v ∈ vs ∧ v !! k = Some x.
Proof using Type.
  revert d. induction vs as [|v vs IH]; intros d; [by left|].
  cbn [foldl]. intros [[Hv|[_ Hd]]%lookup_union_Some_raw|(v' & ? & ?)]%IH.
  - right. exists v. split; [by left|done].
  - by left.
  - right. exists v'. split; [by right|done].
Qed.

(** When the values of the streams agree on the keys they share, the union
    holds under a key the value that any of them has there. *)
Lemma trigger_union_compatible σ streams k x :
  (∀ s1 s2 x1 x2, s1 ∈ streams → s2 ∈ streams →
     value_ σ s1 !! k = Some x1 → value_ σ s2 !! k = Some x2 → x1 = x2) →
  union_ σ streams !! k = Some x
  ↔ ∃ s, s ∈ streams ∧ value_ σ s !! k = Some x.
Proof using items_perm.
  intros Hcompat. rewrite trigger_union_fold. split.
  - intros [H|(v & (s & -> & Hs)%list_elem_of_fmap & Hv)]%foldl_union_lookup_Some.
    + by rewrite lookup_empty in H.
    + by exists s.
  - intros (s & Hs & Hv).
    destruct (proj2 (foldl_union_lookup_is_Some ∅ (map (value_ σ) streams) k))
      as [x' Hx'].
    { right. exists (value_ σ s). split; [|by eexists].
      apply list_elem_of_fmap. by exists s. }
    rewrite Hx'. f_equal.
    apply foldl_union_lookup_Some in Hx'
      as [H|(v & (s' & -> & Hs')%list_elem_of_fmap & Hv')].
    + by rewrite lookup_empty in H.
    + by apply (Hcompat s' s).
Qed.

(** [trigger] for another order of iteration: the same loop. *)
Lemma Stream_trigger_loop_with (iter : gset Callable → list Callable)
    streams σ :
  Stream_trigger items iter call_subscriber streams σ
  = for_each (iter (trigger_subscribers σ streams))
             (λ subscriber, call_ subscriber (union_ σ streams)) σ.
Proof using Type.
  unfold Stream_trigger. by erewrite bind_ok by apply map_m_value.
Qed.

(** X6.  The order of the list given to [trigger], and how often a stream
    is in it, do not matter when the values of the streams agree on the keys
    they share (as they do when no key is shared).  Two lists with the same
    streams give the same union and the same set of subscribers.  The two
    sets may be iterated in different orders: when the subscribers return,
    both calls of [trigger] return after calling the same callables, once
    each, with the same dictionary; when a subscriber raises, both calls
    raise. *)
Theorem trigger_same_streams σ (streams streams' : list loc)
    (set_iter' : gset Callable → list Callable) :
  (∀ X, set_iter' X ≡ₚ elements X) →
  (∀ s, s ∈ streams ↔ s ∈ streams') →
  (∀ s1 s2 k x1 x2, s1 ∈ streams → s2 ∈ streams →
     value items σ s1 !! k = Some x1 → value items σ s2 !! k = Some x2 →
     x1 = x2) →
  trigger_union items σ streams = trigger_union items σ streams'
  ∧ trigger_subscribers σ streams = trigger_subscribers σ streams'
  ∧ ((∀ c, c ∈ trigger_subscribers σ streams →
           call_subscriber c (trigger_union items σ streams) = None) →
     ∃ order order',
       Stream_trigger items set_iter call_subscriber streams σ
       = (log_calls (map (λ c, (c, trigger_union items σ streams)) order) σ,
          Ok tt)
       ∧ Stream_trigger items set_iter' call_subscriber streams' σ
         = (log_calls (map (λ c, (c, trigger_union items σ streams)) order') σ,
            Ok tt)
       ∧ order ≡ₚ order' ∧ NoDup order)
  ∧ (∀ c e, c ∈ trigger_subscribers σ streams →
            call_subscriber c (trigger_union items σ streams) = Some e →
            ∃ σ1 e1 σ2 e2,
              Stream_trigger items set_iter call_subscriber streams σ
              = (σ1, Raise e1)
              ∧ Stream_trigger items set_iter' call_subscriber streams' σ
                = (σ2, Raise e2)).
Proof using items_perm set_iter_perm.
  intros Hperm' Hsame Hcompat.
  assert (trigger_subscribers σ streams = trigger_subscribers σ streams')
    as Hsubs.
  { apply set_eq. intros c. rewrite !elem_of_trigger_subscribers.
    split; intros (s & Hs & Hc); exists s; (split; [by apply Hsame|done]). }
  assert (union_ σ streams = union_ σ streams') as Hunion.
  { apply map_eq. intros k. apply option_eq. intros x.
    rewrite !trigger_union_compatible.
    - split; intros (s & Hs & Hv); exists s; (split; [by apply Hsame|done]).
    - intros s1 s2 x1 x2 Hs1%Hsame Hs2%Hsame. by apply Hcompat.
    - intros s1 s2 x1 x2. by apply Hcompat. }
  assert (∀ c, c ∈ set_iter' (trigger_subscribers σ streams)
               ↔ c ∈ trigger_subscribers σ streams) as Hin'.
  { intros c. by rewrite Hperm', elem_of_elements. }
  split_and!; [done|done| |].
  - intros Hok.
    exists (set_iter (trigger_subscribers σ streams)),
           (set_iter' (trigger_subscribers σ streams)).
    split_and!.
    + rewrite Stream_trigger_loop. apply for_each_call_ok.
      intros c Hc. by apply Hok, elem_of_set_iter.
    + rewrite Stream_trigger_loop_with, <- Hsubs, <- Hunion.
      apply for_each_call_ok. intros c Hc. by apply Hok, Hin'.
    + by rewrite set_iter_perm, Hperm'.
    + apply NoDup_set_iter.
  - intros c e Hc Hraise.
    destruct (first_raise (set_iter (trigger_subscribers σ streams))
                (union_ σ streams))
      as [Hok|(before & c1 & after & e1 & Heq & Hok & Hc1)].
    { rewrite Hok in Hraise by (by apply elem_of_set_iter). done. }
    destruct (first_raise (set_iter' (trigger_subscribers σ streams))
                (union_ σ streams))
      as [Hok'|(before' & c2 & after' & e2 & Heq' & Hok' & Hc2)].
    { rewrite Hok' in Hraise by (by apply Hin'). done. }
    eexists _, e1, _, e2. split.
    + rewrite Stream_trigger_loop, Heq. by apply for_each_call_raise.
    + rewrite Stream_trigger_loop_with, <- Hsubs, <- Hunion, Heq'.
      by apply for_each_call_raise.
Qed.

(** ** The shared list objects *)

(** X7.  After [l.append(p)] on a list of preprocessors, the value of every
    stream that holds this list is [p] applied to its value before, and the
    value of every other stream is as before. *)
Theorem preprocessor_append_composes (l : loc) (p : Preprocessor) σ (s : loc) :
  value_ (pre_list_append l p σ).1 s
  = if decide (preprocessors (objects σ !!! s) = l)
    then Preprocessor_call items p (value_ σ s)
    else value_ σ s.
Proof using Type.
  unfold value. cbn [pre_list_append modify fst with_pre_lists objects pre_lists].
  change (get_param_values items (with_pre_lists _ σ) s)
    with (get_param_values items σ s).
  case_decide as Hl.
  - rewrite Hl, lookup_total_insert_eq. by rewrite foldl_app.
  - by rewrite lookup_total_insert_ne by done.
Qed.

(** X8.  After [l.append(c)] on a list of subscribers, the set that
    [trigger] builds has [c] as well when one of the streams holds the list
    as [subscribers] or [_hidden_subscribers], and is as before otherwise:
    no subscriber is lost by registering another. *)
Theorem subscriber_append_registers (l : loc) (c : Callable) σ
    (streams : list loc) :
  trigger_subscribers (list_append l c σ).1 streams
  = if decide (Exists (λ s, subscribers (objects σ !!! s) = l
                           ∨ _hidden_subscribers (objects σ !!! s) = l)
                     streams)
    then {[ c ]} ∪ trigger_subscribers σ streams
    else trigger_subscribers σ streams.
Proof using Type.
  clear items_perm set_iter_perm call_subscriber.
  assert (∀ l' c', c' ∈ lists (list_append l c σ).1 !!! l'
                     ↔ c' ∈ lists σ !!! l' ∨ (l' = l ∧ c' = c)) as Hlist.
  { intros l' c'. cbn. destruct (decide (l = l')) as [->|Hne].
    - rewrite lookup_total_insert_eq, elem_of_app, list_elem_of_singleton.
      naive_solver.
    - rewrite lookup_total_insert_ne by done. naive_solver. }
  assert (∀ s c', c' ∈ all_subscribers (list_append l c σ).1 s
                  ↔ c' ∈ all_subscribers σ s
                    ∨ (c' = c ∧ (subscribers (objects σ !!! s) = l
                                 ∨ _hidden_subscribers (objects σ !!! s) = l)))
    as Hall.
  { intros s c'. unfold all_subscribers. rewrite !elem_of_app, !Hlist.
    change (objects (list_append l c σ).1) with (objects σ). naive_solver. }
  apply set_eq. intros c'. rewrite elem_of_trigger_subscribers.
  setoid_rewrite Hall. case_decide as Hex; rewrite Exists_exists in Hex.
  - rewrite elem_of_union, elem_of_singleton, elem_of_trigger_subscribers.
    naive_solver.
  - rewrite elem_of_trigger_subscribers. naive_solver.
Qed.

(** ** update *)

Lemma filter_all {A} (P : A → Prop) `{∀ x, Decision (P x)} (l : list A) :
  (∀ x, x ∈ l → P x) → filter P l = l.
Proof using Type.
  induction l as [|x l IH]; intros HP; [done|].
  rewrite filter_cons, decide_True by (apply HP; by left).
  f_equal. apply IH. intros; apply HP; by right.
Qed.

Lemma filter_none {A} (P : A → Prop) `{∀ x, Decision (P x)} (l : list A) :
  (∀ x, x ∈ l → ¬ P x) → filter P l = [].
Proof using Type.
  induction l as [|x l IH]; intros HP; [done|].
  rewrite filter_cons, decide_False by (apply HP; by left).
  apply IH. intros; apply HP; by right.
Qed.

Lemma source_assign_all ps kvs o :
  source (assign_all ps kvs o) = source o ∧ uuid (assign_all ps kvs o) = uuid o.
Proof using Type.
  revert o. induction kvs as [|[k v] kvs IH]; intros o; [done|].
  unfold assign_all in *. cbn [foldl fst snd].
  destruct (IH (assign ps k v o)) as (-> & ->).
  unfold assign. by destruct (ps !! k).
Qed.

(** The value of an instance does not depend on the fields of another. *)
Lemma value_update_object_ne self F σ s :
  s ≠ self → (∀ o, cls (F o) = cls o) →
  value_ (update_object self F σ) s = value_ σ s.
Proof using Type.
  intros Hne Hcls. unfold value, get_param_values.
  rewrite params_update_object by done.
  cbn [update_object with_objects objects pre_lists].
  by rewrite lookup_total_alter_ne by done.
Qed.

(** X9.  [update] with [trigger=False], keywords that name declared fields
    and values that are accepted: it returns without a call to any
    subscriber; the supplied fields of the instance have their new values
    and its other fields, its mapping, its source and its list objects are
    as before; every other instance, the constant flags, the list objects
    and the registry are as before, and so is the value of every other
    stream. *)
Theorem update_changes_only_supplied_fields σ (self : loc) o (kwargs : Dict) :
  objects σ !! self = Some o →
  (∀ k, is_Some (kwargs !! k) → is_Some (params σ self !! k)) →
  (∀ k v, kwargs !! k = Some v → rejects (params σ self) k v = false) →
  ∃ σ1 o1,
    update_ self false kwargs σ = (σ1, Ok tt)
    ∧ calls σ1 = calls σ
    ∧ classes σ1 = classes σ
    ∧ lists σ1 = lists σ
    ∧ pre_lists σ1 = pre_lists σ
    ∧ registry σ1 = registry σ
    ∧ objects σ1 = <[self := o1]> (objects σ)
    ∧ param_values o1 = kwargs ∪ param_values o
    ∧ attributes o1 = attributes o
    ∧ mapping o1 = mapping o
    ∧ source o1 = source o
    ∧ subscribers o1 = subscribers o
    ∧ _hidden_subscribers o1 = _hidden_subscribers o
    ∧ preprocessors o1 = preprocessors o
    ∧ (∀ s, s ≠ self → value_ σ1 s = value_ σ s).
Proof using items_perm.
  intros Ho Hdecl Hok.
  set (F := assign_all (params σ self) (items _ kwargs)).
  exists (update_object self F σ), (F o).
  destruct (shape_assign_all (params σ self) (items _ kwargs) o)
    as (_ & Hsub & Hpre & Hhid & Hmap).
  destruct (source_assign_all (params σ self) (items _ kwargs) o) as [Hsrc _].
  split_and!; try done.
  - by rewrite Stream_update_accepted by done.
  - cbn. apply map_eq. intros s. rewrite lookup_alter.
    case_decide as Hs; [subst s|].
    + by rewrite lookup_insert_eq, Ho.
    + by rewrite lookup_insert_ne by done.
  - unfold F. rewrite param_values_assign_all, filter_all.
    + apply dict_update_items.
    + intros [k v] Hkv%elem_of_items. apply Hdecl. by exists v.
  - unfold F. rewrite attributes_assign_all, filter_none; [done|].
    intros [k v] Hkv%elem_of_items Hnone. cbn in Hnone.
    destruct (Hdecl k) as [p Hp]; [by exists v|]. congruence.
  - intros s Hs. apply value_update_object_ne; [done|].
    intros. apply cls_assign_all.
Qed.

(** X10.  [update] without keywords changes nothing: with [trigger=False]
    the store is exactly as before, the flags having been lifted and put
    back, and with [trigger=True] the call is [Stream.trigger([self])]. *)
Theorem update_without_keywords σ (self : loc) :
  Stream_update items set_iter call_subscriber self false ∅ σ = (σ, Ok tt)
  ∧ Stream_update items set_iter call_subscriber self true ∅ σ
    = Stream_trigger items set_iter call_subscriber [self] σ.
Proof using items_perm.
  assert (∀ trigger,
    update_ self trigger ∅ σ
    = (if trigger then trigger_ [self] else ret tt) σ) as Hrun.
  { intros trigger. rewrite Stream_update_accepted.
    - rewrite items_empty. f_equal. apply update_object_id.
    - intros k v Hk. by rewrite lookup_empty in Hk. }
  split; [apply (Hrun false)|apply (Hrun true)].
Qed.


(** X12.  [update] with a value that [set_param] refuses raises without a
    call to any subscriber, also with [trigger=True]; the list objects, the
    registry and every other instance are as before. *)
Theorem update_refused_calls_nobody σ (self : loc) trigger (kwargs : Dict)
    k v :
  kwargs !! k = Some v →
  rejects (params σ self) k v = true →
  ∃ σ' e,
    update_ self trigger kwargs σ = (σ', Raise e)
    ∧ calls σ' = calls σ
    ∧ lists σ' = lists σ
    ∧ pre_lists σ' = pre_lists σ
    ∧ registry σ' = registry σ
    ∧ (∀ s, s ≠ self → objects σ' !! s = objects σ !! s).
Proof using items_perm.
  intros Hkv Hbad.
  destruct (Stream_update_refused self trigger kwargs σ k v Hkv Hbad)
    as (F & -> & _).
  eexists _, _. split_and!; try done.
  intros s Hs. cbn. by rewrite lookup_alter_ne by done.
Qed.

(** ** The constructor and the registry *)

Lemma same_identity_assign ps k v : same_identity (assign ps k v).
Proof using Type. intros o. unfold assign. by destruct (ps !! k). Qed.

Lemma same_identity_compose F G :
  same_identity F → same_identity G → same_identity (F ∘ G).
Proof using Type. intros HF HG o. cbn. destruct (HF (G o)) as (-> & ->). apply HG. Qed.

Lemma Parameterized_init_frame self kvs σ :
  ∃ F r, for_each kvs (λ kv, init_param self kv.1 kv.2) σ
         = (update_object self F σ, r)
         ∧ same_shape F ∧ same_identity F.
Proof using Type.
  revert σ. induction kvs as [|[k v] kvs IH]; intros σ.
  - exists (λ o, o), (Ok tt). split; [|done]. cbn. by rewrite update_object_id.
  - cbn [for_each fst snd]. destruct (rejects (params σ self) k v) eqn:Hr.
    + exists (λ o, o), (Raise (ValueError
                 "Parameter value is not of the declared type")).
      split; [|done]. erewrite bind_raise; [reflexivity|].
      by rewrite init_param_run, Hr, update_object_id.
    + destruct (IH (update_object self (assign (params σ self) k v) σ))
        as (F & r & HF & Hshape & Hid).
      exists (F ∘ assign (params σ self) k v), r. split_and!.
      * erewrite bind_ok; cycle 1.
        { rewrite init_param_run, Hr. reflexivity. }
        by rewrite HF, update_object_compose.
      * by apply same_shape_compose, same_shape_assign.
      * by apply same_identity_compose, same_identity_assign.
Qed.

(** What a constructor call has done to the store, whether it returns or
    raises. *)
Lemma Stream_init_frame cname m src subs pres kw σ σ' r :
  init_ cname m src subs pres kw σ = (σ', r) →
  classes σ' = classes σ
  ∧ calls σ' = calls σ
  ∧ pre_lists σ' = pre_lists σ
  ∧ lists σ' = <[fresh ({[default_subscribers]} ∪ dom (lists σ)) := []]> (lists σ)
  ∧ (∀ s, is_Some (objects σ !! s) → objects σ' !! s = objects σ !! s)
  ∧ match r with
    | Ok self =>
        self = fresh (dom (objects σ))
        ∧ registry σ' = registry σ ++ [(uuids σ, self)]
        ∧ ∃ o', objects σ' = <[self := o']> (objects σ)
                ∧ source o' = src ∧ uuid o' = uuids σ ∧ cls o' = cname
                ∧ subscribers o' = default default_subscribers subs
                ∧ preprocessors o' = default default_preprocessors pres
                ∧ _hidden_subscribers o'
                  = fresh ({[default_subscribers]} ∪ dom (lists σ))
    | Raise e => registry σ' = registry σ
    end.
Proof using Type.
  unfold Stream_init. erewrite bind_ok by apply new_list_run.
  set (l := fresh ({[default_subscribers]} ∪ dom (lists σ))).
  set (σa := with_lists (insert l []) σ).
  destruct (choose_mapping_store cname m σa) as [[mp|e] Hm].
  2: { erewrite bind_raise by exact Hm. intros [= <- <-]. by split_and!. }
  erewrite bind_ok by exact Hm.
  erewrite bind_ok by apply new_uuid_run.
  erewrite bind_ok by apply new_object_run.
  set (o0 := {| cls := cname; source := src;
       subscribers := default default_subscribers subs;
       preprocessors := default default_preprocessors pres;
       _hidden_subscribers := l; mapping := mp; uuid := uuids σa;
       param_values := ∅; attributes := ∅ |}).
  set (self0 := fresh (dom (objects (with_uuids Pos.succ σa)))).
  set (σc := with_objects (insert self0 o0) (with_uuids Pos.succ σa)).
  assert (∀ F s, is_Some (objects σ !! s) →
            objects (update_object self0 F σc) !! s = objects σ !! s) as Hold.
  { intros F s Hs. cbn. assert (s ≠ self0) as Hne.
    { intros ->. apply elem_of_dom in Hs. by apply is_fresh in Hs. }
    rewrite lookup_alter_ne by done. by rewrite lookup_insert_ne by done. }
  destruct (Parameterized_init_frame self0 (items _ kw) σc)
    as (F & [[]|e] & HF & Hshape & Hid).
  2: { unfold Parameterized_init. erewrite bind_raise by exact HF.
       intros [= <- <-]. split_and!; try done. apply Hold. }
  unfold Parameterized_init. erewrite bind_ok by exact HF.
  intros [= <- <-]. split_and!; try done; [apply Hold|].
  destruct (Hshape o0) as (Hc & Hs & Hp & Hh & _).
  destruct (Hid o0) as (Hsrc & Hu).
  exists (F o0). split_and!; try done.
  cbn. apply alter_insert_eq.
Qed.

Lemma elem_of_Stream_find σ obj s :
  s ∈ Stream_find σ obj
  ↔ s ∈ (registry σ).*2 ∧ source (objects σ !!! s) = obj.
Proof using Type.
  try clear call_subscriber; try clear set_iter_perm; try clear items_perm.
  unfold Stream_find. rewrite elem_of_list_to_set, list_elem_of_filter.
  naive_solver.
Qed.

(** The registered streams stay instances through a constructor call. *)
Lemma Stream_init_live cname m src subs pres kw σ σ' r :
  registry_live σ →
  init_ cname m src subs pres kw σ = (σ', r) →
  registry_live σ'.
Proof using Type.
  intros Hlive (_ & _ & _ & _ & Hold & Hr)%Stream_init_frame.
  destruct r as [self|e].
  - destruct Hr as (-> & Hreg & o' & Hobj & _).
    intros s. rewrite Hreg, fmap_app, elem_of_app. cbn.
    rewrite list_elem_of_singleton. intros [Hs| ->].
    + rewrite Hold by by apply Hlive. by apply Hlive.
    + rewrite Hobj, lookup_insert_eq. by eexists.
  - intros s. rewrite Hr. intros Hs.
    rewrite Hold by by apply Hlive. by apply Hlive.
Qed.

(** X13.  In a store whose registered streams are instances, a constructor
    call whose keywords name declared fields and that returns has
    registered the new instance, and nothing else has changed for [find]:
    the streams found for an object are those found before, with the new
    instance when the object is its source.  The new instance is a new
    object, and the registered streams are instances again. *)
Theorem find_after_construction cname m src subs pres (kw : Dict) σ σ' self :
  registry_live σ →
  (∀ k, is_Some (kw !! k) → is_Some (class_params σ cname !! k)) →
  init_ cname m src subs pres kw σ = (σ', Ok self) →
  registry_live σ'
  ∧ objects σ !! self = None
  ∧ registry σ' = registry σ ++ [(uuids σ, self)]
  ∧ ∀ obj,
      Stream_find σ' obj
      = if decide (src = obj) then {[ self ]} ∪ Stream_find σ obj
        else Stream_find σ obj.
Proof using Type.
  try clear call_subscriber; try clear set_iter_perm; try clear items_perm.
  intros Hlive _ Hrun.
  pose proof (Stream_init_live _ _ _ _ _ _ _ _ _ Hlive Hrun).
  apply Stream_init_frame in Hrun
    as (_ & _ & _ & _ & Hold & -> & Hreg & o' & Hobj & Hsrc & _).
  set (self := fresh (dom (objects σ))) in *.
  assert (objects σ !! self = None) as Hnew
    by (apply not_elem_of_dom, is_fresh).
  assert (∀ s, s ∈ (registry σ).*2 → objects σ' !!! s = objects σ !!! s) as Hsame.
  { intros s Hs. rewrite !lookup_total_alt. by rewrite Hold by by apply Hlive. }
  split_and!; [done|done|done|].
  - intros obj. apply set_eq. intros s.
    assert (s ∈ Stream_find σ' obj
            ↔ s ∈ Stream_find σ obj ∨ (s = self ∧ src = obj)) as ->.
    { rewrite !elem_of_Stream_find, Hreg, fmap_app, elem_of_app. cbn.
      rewrite list_elem_of_singleton. split.
      - intros [[Hs| ->] Hv].
        + left. split; [done|]. by rewrite <- Hsame.
        + right. split; [done|].
          rewrite Hobj, lookup_total_insert_eq in Hv. congruence.
      - intros [[Hs Hv]|[-> <-]].
        + split; [by left|]. by rewrite Hsame.
        + split; [by right|]. by rewrite Hobj, lookup_total_insert_eq. }
    case_decide; [rewrite elem_of_union, elem_of_singleton|]; naive_solver.
Qed.

(** X14.  A constructor call that raises, on the mapping or on a field
    override, has registered nothing: the registry is as before and [find]
    returns what it returned before. *)
Theorem failed_construction_registers_nothing cname m src subs pres
    (kw : Dict) σ σ' e :
  registry_live σ →
  init_ cname m src subs pres kw σ = (σ', Raise e) →
  registry σ' = registry σ
  ∧ registry_live σ'
  ∧ ∀ obj, Stream_find σ' obj = Stream_find σ obj.
Proof using Type.
  intros Hlive Hrun. pose proof (Stream_init_live _ _ _ _ _ _ _ _ _ Hlive Hrun).
  apply Stream_init_frame in Hrun as (_ & _ & _ & _ & Hold & Hreg).
  split_and!; [done|done|].
  - intros obj. apply set_eq. intros s. rewrite !elem_of_Stream_find, Hreg.
    split; intros [Hs Hv]; (split; [done|]);
      rewrite !lookup_total_alt, Hold in * by (by apply Hlive); done.
Qed.

Lemma registry_live_alter F self σ σ' :
  registry σ' = registry σ → objects σ' = alter F self (objects σ) →
  registry_live σ → registry_live σ'.
Proof using Type.
  intros Hreg Hobj Hlive s. rewrite Hreg, Hobj, lookup_alter.
  intros Hs%Hlive. case_decide; [subst|done]. by apply fmap_is_Some.
Qed.

(** [update], whatever its outcome, alters at most the instance [self]. *)
Lemma Stream_update_registry self trigger kwargs σ :
  ∃ F, registry (update_ self trigger kwargs σ).1 = registry σ
       ∧ objects (update_ self trigger kwargs σ).1 = alter F self (objects σ).
Proof using items_perm.
  destruct (decide (Exists (λ kv, rejects (params σ self) kv.1 kv.2 = true)
                      (items _ kwargs))) as [Hbad|Hok].
  - apply Exists_exists in Hbad as ([k v] & Hin%elem_of_items & Hr).
    destruct (Stream_update_refused self trigger kwargs σ k v Hin Hr)
      as (F & -> & _).
    by exists F.
  - rewrite Stream_update_accepted.
    + eexists. destruct trigger; [|done].
      destruct (Stream_trigger_logs [self]
                  (update_object self
                     (assign_all (params σ self) (items _ kwargs)) σ))
        as (new & r & ->).
      done.
    + intros k v Hkv. apply not_true_is_false. intros Hr. apply Hok.
      apply Exists_exists. exists (k, v). split; [|done].
      by apply elem_of_items.
Qed.

(** X15.  No method of [Stream] removes a stream from the registry or
    changes the order of the registry: [trigger] and [update] leave it as it
    is, whatever their outcome, and the constructor, called with keywords
    that name declared fields, adds at most one entry at the end.  In a
    store whose registered streams are instances they are instances after
    each of these calls. *)
Theorem registry_never_shrinks σ :
  (∀ streams,
     registry (trigger_ streams σ).1 = registry σ
     ∧ (registry_live σ → registry_live (trigger_ streams σ).1))
  ∧ (∀ self trigger (kwargs : Dict),
       registry (update_ self trigger kwargs σ).1 = registry σ
       ∧ (registry_live σ → registry_live (update_ self trigger kwargs σ).1))
  ∧ (∀ cname m src subs pres (kw : Dict),
       (∀ k, is_Some (kw !! k) → is_Some (class_params σ cname !! k)) →
       (∃ suffix,
          registry (init_ cname m src subs pres kw σ).1 = registry σ ++ suffix
          ∧ (length suffix ≤ 1)%nat)
       ∧ (registry_live σ →
          registry_live (init_ cname m src subs pres kw σ).1)).
Proof using items_perm.
  split_and!.
  - intros streams.
    destruct (Stream_trigger_logs streams σ) as (new & r & ->). done.
  - intros self trigger kwargs.
    destruct (Stream_update_registry self trigger kwargs σ) as (F & Hreg & Hobj).
    split; [done|]. by apply (registry_live_alter F self).
  - intros cname m src subs pres kw _.
    destruct (init_ cname m src subs pres kw σ) as [σ' [self|e]] eqn:Hrun.
    + split.
      * apply Stream_init_frame in Hrun
          as (_ & _ & _ & _ & _ & _ & Hreg & _).
        eexists. split; [exact Hreg|]. cbn. lia.
      * intros Hlive. by apply (Stream_init_live _ _ _ _ _ _ _ _ _ Hlive Hrun).
    + split.
      * apply Stream_init_frame in Hrun as (_ & _ & _ & _ & _ & Hreg).
        exists []. rewrite app_nil_r. split; [exact Hreg|]. cbn. lia.
      * intros Hlive. by apply (Stream_init_live _ _ _ _ _ _ _ _ _ Hlive Hrun).
Qed.

(** X16.  Unlike the default [subscribers] list, the list of hidden
    subscribers is made anew by every constructor call: for two instances
    constructed one after the other, with keywords that name declared
    fields, the two lists are different objects,
    neither is the default list nor a list that existed before, and both
    start empty.  A callable appended to the hidden list of the first is a
    subscriber of the first and, unless the second was handed that very list
    as its [subscribers], does not change the subscribers of the second. *)
Theorem hidden_subscribers_are_private c1 c2 m1 m2 src1 src2 subs1 subs2
    pres1 pres2 (kw1 kw2 : Dict) σ0 σ1 σ2 (a b : loc) :
  (∀ k, is_Some (kw1 !! k) → is_Some (class_params σ0 c1 !! k)) →
  (∀ k, is_Some (kw2 !! k) → is_Some (class_params σ1 c2 !! k)) →
  init_ c1 m1 src1 subs1 pres1 kw1 σ0 = (σ1, Ok a) →
  init_ c2 m2 src2 subs2 pres2 kw2 σ1 = (σ2, Ok b) →
  ∃ ha hb,
    _hidden_subscribers (objects σ2 !!! a) = ha
    ∧ _hidden_subscribers (objects σ2 !!! b) = hb
    ∧ ha ≠ hb
    ∧ ha ≠ default_subscribers ∧ hb ≠ default_subscribers
    ∧ lists σ0 !! ha = None ∧ lists σ1 !! hb = None
    ∧ lists σ2 !!! ha = [] ∧ lists σ2 !!! hb = []
    ∧ (subs2 ≠ Some ha →
       ∀ c, c ∈ all_subscribers (list_append ha c σ2).1 a
            ∧ all_subscribers (list_append ha c σ2).1 b
              = all_subscribers σ2 b).
Proof using Type.
  try clear call_subscriber; try clear set_iter_perm; try clear items_perm.
  intros _ _.
  intros (_ & _ & _ & Hl1 & _ & Ha & _ & oa & Hobj1 & _ & _ & _ & _ & _ & Hha)%Stream_init_frame
         (_ & _ & _ & Hl2 & _ & Hb & _ & ob & Hobj2 & _ & _ & _ & Hsb & _ & Hhb)%Stream_init_frame.
  set (ha := fresh ({[default_subscribers]} ∪ dom (lists σ0))) in *.
  set (hb := fresh ({[default_subscribers]} ∪ dom (lists σ1))) in *.
  assert (a ≠ b) as Hab.
  { intros <-. pose proof (is_fresh (dom (objects σ1))) as Hfresh.
    rewrite <- Hb, Hobj1 in Hfresh. apply Hfresh.
    rewrite dom_insert_L. set_solver. }
  assert (objects σ2 !!! a = oa) as Hoa.
  { rewrite Hobj2, Hobj1. rewrite lookup_total_insert_ne by done.
    apply lookup_total_insert_eq. }
  assert (objects σ2 !!! b = ob) as Hob
    by (rewrite Hobj2; apply lookup_total_insert_eq).
  pose proof (is_fresh ({[default_subscribers]} ∪ dom (lists σ0))) as Hfa.
  pose proof (is_fresh ({[default_subscribers]} ∪ dom (lists σ1))) as Hfb.
  fold ha in Hfa. fold hb in Hfb.
  assert (ha ≠ hb) as Hne.
  { intros Heq. apply Hfb. rewrite <- Heq, Hl1, dom_insert_L. set_solver. }
  assert (ha ≠ default_subscribers) as Hda by set_solver.
  assert (hb ≠ default_subscribers) as Hdb by set_solver.
  exists ha, hb. rewrite Hoa, Hob.
  split_and!; try done.
  - apply not_elem_of_dom. set_solver.
  - apply not_elem_of_dom. set_solver.
  - rewrite Hl2, Hl1. rewrite lookup_total_insert_ne by done.
    apply lookup_total_insert_eq.
  - rewrite Hl2. apply lookup_total_insert_eq.
  - intros Hsubs c. unfold all_subscribers.
    change (objects (list_append ha c σ2).1) with (objects σ2).
    rewrite Hoa, Hob, Hha, Hhb, Hsb. cbn [list_append modify fst with_lists lists].
    split.
    + apply elem_of_app. right. rewrite lookup_total_insert_eq.
      apply elem_of_app. right. by left.
    + rewrite !lookup_total_insert_ne; [done|done|].
      destruct subs2 as [l|]; cbn; [|done]. intros ->. by apply Hsubs.
Qed.

(** A constructor call whose mapping is settled and whose field overrides
    are accepted: the store and the instance it returns. *)
Lemma Stream_init_accepted cname m mp src subs pres (kw : Dict) σ :
  let l := fresh ({[default_subscribers]} ∪ dom (lists σ)) in
  let self := fresh (dom (objects σ)) in
  let o0 := {| cls := cname; source := src;
               subscribers := default default_subscribers subs;
               preprocessors := default default_preprocessors pres;
               _hidden_subscribers := l; mapping := mp; uuid := uuids σ;
               param_values := ∅; attributes := ∅ |} in
  let σc := with_objects (insert self o0)
              (with_uuids Pos.succ (with_lists (insert l []) σ)) in
  choose_mapping items cname m (with_lists (insert l []) σ)
  = (with_lists (insert l []) σ, Ok mp) →
  (∀ k v, kw !! k = Some v → rejects (class_params σ cname) k v = false) →
  init_ cname m src subs pres kw σ
  = (with_registry (λ r, r ++ [(uuids σ, self)])
       (update_object self
          (assign_all (class_params σ cname) (items _ kw)) σc),
     Ok self)
  ∧ objects (update_object self
               (assign_all (class_params σ cname) (items _ kw)) σc) !!! self
    = assign_all (class_params σ cname) (items _ kw) o0
  ∧ params σc self = class_params σ cname.
Proof using items_perm.
  intros l self o0 σc Hm Hok.
  assert (params σc self = class_params σ cname) as Hps.
  { unfold params, σc. cbn. by rewrite lookup_total_insert_eq. }
  split_and!; [|apply lookup_update_object; cbn; apply lookup_insert_eq|done].
  unfold Stream_init. erewrite bind_ok by apply new_list_run.
  erewrite bind_ok by exact Hm.
  erewrite bind_ok by apply new_uuid_run.
  erewrite bind_ok by apply new_object_run.
  unfold Parameterized_init. erewrite bind_ok; cycle 1.
  { apply Parameterized_init_ok. intros [k' v'] Hin%elem_of_items.
    change (rejects (params σc self) k' v' = false).
    rewrite Hps. by apply Hok. }
  change (params _ _) with (params σc self). rewrite Hps. reflexivity.
Qed.

(** X17.  The constructor does not validate a dictionary given as
    [mapping]: with [mapping=None] or any dictionary, also one that names
    fields the class does not declare, and keywords that name declared
    fields with values that are accepted, the call returns for a class with
    any number of fields; the instance holds the dictionary as it is ([{}]
    for [None]), it is a new object, and it is the last entry of the
    registry. *)
Theorem init_mapping_not_validated cname m src subs pres (kw : Dict) σ :
  (m = MappingNone ∨ ∃ d, m = MappingDict d) →
  (∀ k, is_Some (kw !! k) → is_Some (class_params σ cname !! k)) →
  (∀ k v, kw !! k = Some v → rejects (class_params σ cname) k v = false) →
  ∃ σ' self,
    init_ cname m src subs pres kw σ = (σ', Ok self)
    ∧ objects σ !! self = None
    ∧ mapping (objects σ' !!! self)
      = match m with MappingDict d => d | _ => ∅ end
    ∧ source (objects σ' !!! self) = src
    ∧ registry σ' = registry σ ++ [(uuids σ, self)].
Proof using items_perm.
  intros Hm _ Hok.
  set (mp := match m with MappingDict d => d | _ => (∅ : gmap string string) end).
  destruct (Stream_init_accepted cname m mp src subs pres kw σ)
    as (Hrun & Hobj & _); [|done|].
  { unfold choose_mapping. erewrite bind_ok by reflexivity.
    destruct Hm as [->|[d ->]]; done. }
  eexists _, _. split; [exact Hrun|].
  split; [apply not_elem_of_dom, is_fresh|].
  cbn [with_registry objects registry]. rewrite Hobj.
  destruct (shape_assign_all (class_params σ cname) (items _ kw)
    {| cls := cname; source := src;
       subscribers := default default_subscribers subs;
       preprocessors := default default_preprocessors pres;
       _hidden_subscribers := fresh ({[default_subscribers]} ∪ dom (lists σ));
       mapping := mp; uuid := uuids σ;
       param_values := ∅; attributes := ∅ |}) as (_ & _ & _ & _ & ->).
  destruct (source_assign_all (class_params σ cname) (items _ kw)
    {| cls := cname; source := src;
       subscribers := default default_subscribers subs;
       preprocessors := default default_preprocessors pres;
       _hidden_subscribers := fresh ({[default_subscribers]} ∪ dom (lists σ));
       mapping := mp; uuid := uuids σ;
       param_values := ∅; attributes := ∅ |}) as (-> & _).
  done.
Qed.

(** ** value without mapping and preprocessors *)

(** The value of a stream with an empty mapping and no preprocessor: every
    declared field except [name], under its own name. *)
Lemma value_plain_lookup σ self k :
  mapping (objects σ !!! self) = ∅ →
  pre_lists σ !!! preprocessors (objects σ !!! self) = [] →
  value_ σ self !! k
  = if decide (k = "name") then None
    else (λ p, default (p_default p)
                 (param_values (objects σ !!! self) !! k))
         <$> params σ self !! k.
Proof using items_perm.
  intros Hmap Hpre. unfold value. rewrite Hmap, Hpre. cbn [foldl].
  set (fields := filter (λ kv : string * PyVal, kv.1 ≠ "name")
                        (get_param_values items σ self)).
  assert (NoDup fields.*1) as Hnd
    by apply NoDup_fst_filter, NoDup_fst_get_param_values.
  assert (∀ k0 : string, dict_get (∅ : gmap string string) k0 k0 = k0) as Hid
    by done.
  destruct (dict_of_pairs
              (map (λ kv : string * PyVal,
                      (dict_get (∅ : gmap string string) kv.1 kv.1, kv.2))
                   fields) !! k) as [x|] eqn:Hx.
  - apply (renamed_pairs_lookup_Some
             (λ k0, dict_get (∅ : gmap string string) k0 k0)) in Hx
      as (k0 & [Hne Hin]%list_elem_of_filter & <-).
    apply elem_of_get_param_values in Hin as (p & Hp & ->).
    cbn in Hne. rewrite Hid, decide_False by done. by rewrite Hp.
  - case_decide as Hname; [done|].
    destruct (params σ self !! k) as [p|] eqn:Hp; [|done]. exfalso.
    assert ((k, default (p_default p)
                  (param_values (objects σ !!! self) !! k)) ∈ fields) as Hin.
    { apply list_elem_of_filter. split; [done|].
      apply elem_of_get_param_values. by exists p. }
    pose proof (renamed_pairs_lookup_inj
                  (λ k0, dict_get (∅ : gmap string string) k0 k0)
                  fields k _ Hnd Hin) as Hthere.
    cbn beta in Hthere. rewrite (Hid k) in Hthere.
    rewrite Hthere in Hx; [done|].
    intros k2 _. by rewrite !Hid.
Qed.


(** X19.  Reading back what [update] wrote.  For a stream with an empty
    mapping and no preprocessor, after [update] with keywords that name
    declared fields and values that are accepted, the value is the value
    before overridden by the keywords (the keyword [name] apart, which
    [value] never shows). *)
Theorem value_after_update σ (self : loc) o (kwargs : Dict) :
  objects σ !! self = Some o →
  mapping o = ∅ →
  pre_lists σ !!! preprocessors o = [] →
  (∀ k, is_Some (kwargs !! k) → is_Some (params σ self !! k)) →
  (∀ k v, kwargs !! k = Some v → rejects (params σ self) k v = false) →
  ∃ σ1,
    update_ self false kwargs σ = (σ1, Ok tt)
    ∧ value_ σ1 self = delete "name" kwargs ∪ value_ σ self.
Proof using items_perm.
  intros Ho Hmap Hnopre Hdecl Hok.
  set (F := assign_all (params σ self) (items _ kwargs)).
  exists (update_object self F σ).
  split; [by rewrite Stream_update_accepted by done|].
  assert (objects σ !!! self = o) as Ho'
    by (by rewrite lookup_total_alt, Ho).
  assert (objects (update_object self F σ) !!! self = F o) as Hobj
    by by apply lookup_update_object.
  assert (params (update_object self F σ) self = params σ self) as Hps
    by (apply params_update_object; intros; apply cls_assign_all).
  destruct (shape_assign_all (params σ self) (items _ kwargs) o)
    as (_ & _ & Hpre & _ & Hmap'). fold F in Hpre, Hmap'.
  apply map_eq. intros k. rewrite lookup_union.
  rewrite !value_plain_lookup;
    rewrite ?Hobj, ?Ho', ?Hpre, ?Hmap'; try done.
  case_decide as Hname.
  - subst k. by rewrite lookup_delete_eq.
  - rewrite lookup_delete_ne by done. rewrite Hps.
    destruct (kwargs !! k) as [v|] eqn:Hkw.
    + destruct (Hdecl k) as [p Hp]; [by eexists|]. rewrite Hp. cbn.
      unfold F. by rewrite (param_values_assign_items _ _ _ k v)
        by (done || by eexists).
    + unfold F. rewrite param_values_assign_items_other by done.
      by destruct (params σ self !! k).
Qed.

(** ** The variants *)



End Properties.

(** ** The claims on the sample host and stores *)

Lemma host_items_perm V (d : gmap string V) : host_items V d ≡ₚ map_to_list d.
Proof. done. Defined.

Lemma host_set_iter_perm X : host_set_iter X ≡ₚ elements X.
Proof. done. Defined.

(** [Rename(x='posx')] on [{'x': 3, 'y': 4}]. *)
Lemma Rename_call_renames_keys_witness :
  Rename_call host_items {[ "x" := "posx" ]}
    (<[ "x" := VNum 3 ]> {[ "y" := VNum 4 ]})
  = <[ "posx" := VNum 3 ]> {[ "y" := VNum 4 ]}.
Proof.
  exact (proj2 (proj2 (proj2 (proj2
    (Rename_call_renames_keys host_items host_items_perm
       {[ "x" := "posx" ]} (<[ "x" := VNum 3 ]> {[ "y" := VNum 4 ]})))))).
Defined.

(** [Stream.trigger([a, b])] with [a.x = 1] and [b.x = 2], when [s7] is a
    subscriber: the union has [x = 2], and [s7] is called with a dictionary
    that has [x = 2]. *)
Lemma trigger_union_last_write_wins_witness :
  trigger_union host_items two_streams_subscribed [1%positive; 2%positive]
    !! "x" = Some (VNum 2)
  ∧ ∃ new,
      Stream_trigger host_items host_set_iter all_return
        [1%positive; 2%positive] two_streams_subscribed
      = (log_calls new two_streams_subscribed, Ok tt)
      ∧ new ≠ []
      ∧ ∃ d, (7%positive, d) ∈ new ∧ d !! "x" = Some (VNum 2).
Proof.
  assert (value host_items two_streams_subscribed 1%positive !! "x"
          = Some (VNum 1)) as Ha by (vm_compute; reflexivity).
  assert (value host_items two_streams_subscribed 2%positive !! "x"
          = Some (VNum 2)) as Hb by (vm_compute; reflexivity).
  assert (7%positive ∈ trigger_subscribers two_streams_subscribed
                         [1%positive; 2%positive]) as H7
    by (apply (bool_decide_unpack _); vm_compute; reflexivity).
  pose proof (trigger_union_last_write_wins host_items host_items_perm
                host_set_iter host_set_iter_perm all_return
                two_streams_subscribed [1%positive; 2%positive])
    as (_ & _ & Hunion & _ & Hcalls).
  split; [exact (Hunion 1%positive 2%positive "x" (VNum 1) (VNum 2) Ha Hb)|].
  destruct (Hcalls 1%positive 2%positive "x" (VNum 1) (VNum 2) Ha Hb)
    as (new & r & Hrun & _ & Hsome & Hall).
  destruct Hall as [-> Hevery]; [intros c _; reflexivity|].
  exists new. split; [exact Hrun|]. split.
  - apply Hsome. intros Hempty. rewrite Hempty in H7.
    by apply not_elem_of_empty in H7.
  - exact (Hevery 7%positive H7).
Defined.

(** [Stream.trigger([a, b])] when [s7] is a subscriber of both and [s8] a
    hidden subscriber of [b]. *)
Lemma trigger_calls_each_subscriber_once_witness :
  ∃ order,
    Stream_trigger host_items host_set_iter all_return
      [1%positive; 2%positive] two_streams_subscribed
    = (log_calls
         (map (λ c, (c, trigger_union host_items two_streams_subscribed
                          [1%positive; 2%positive])) order)
         two_streams_subscribed, Ok tt)
    ∧ NoDup order
    ∧ (7%positive ∈ order ∧ 8%positive ∈ order).
Proof.
  destruct (trigger_calls_each_subscriber_once host_items host_set_iter
              host_set_iter_perm all_return two_streams_subscribed
              [1%positive; 2%positive])
    as (order & Hrun & Hnd & Hmem & _).
  - intros c _. reflexivity.
  - exists order. split; [exact Hrun|]. split; [exact Hnd|]. split.
    + apply Hmem. exists 1%positive. split; [by left|].
      left. vm_compute. by left.
    + apply Hmem. exists 2%positive. split; [right; by left|].
      right. vm_compute. by left.
Defined.

(** The same trigger when [s7] raises. *)
Lemma trigger_subscriber_exception_aborts_witness :
  ∃ before c after e,
    host_set_iter (trigger_subscribers two_streams_subscribed
                     [1%positive; 2%positive])
    = before ++ c :: after
    ∧ Stream_trigger host_items host_set_iter seven_raises
        [1%positive; 2%positive] two_streams_subscribed
      = (log_calls
           (map (λ c, (c, trigger_union host_items two_streams_subscribed
                            [1%positive; 2%positive])) (before ++ [c]))
           two_streams_subscribed, Raise e)
    ∧ (∀ c', c' ∈ after → c' ∉ before ++ [c]).
Proof.
  destruct (trigger_subscriber_exception_aborts host_items host_set_iter
              host_set_iter_perm seven_raises two_streams_subscribed
              [1%positive; 2%positive] 7%positive (SubscriberError 7))
    as (before & c & after & e & Horder & _ & Hrun & Hafter).
  - apply (bool_decide_unpack _). vm_compute. reflexivity.
  - reflexivity.
  - exists before, c, after, e. split; [exact Horder|]. split; [exact Hrun|].
    exact Hafter.
Defined.

(** Two reads of [a.value]. *)
Lemma value_remaps_then_preprocesses_witness :
  (v1 <- Stream_value host_items 1%positive ;;
   v2 <- Stream_value host_items 1%positive ;;
   ret (v1, v2)) two_streams
  = (two_streams,
     Ok (value host_items two_streams 1%positive,
         value host_items two_streams 1%positive)).
Proof.
  exact (proj2 (proj2 (proj2
    (value_remaps_then_preprocesses host_items host_items_perm two_streams
       1%positive)))).
Defined.

(** [a.update(x='a')]: the value is refused, and [x], constant before the
    call, is not constant after it. *)
Lemma update_refused_leaves_constants_lifted_witness :
  ∃ σ' e,
    Stream_update host_items host_set_iter all_return 1%positive true
      {[ "x" := VStr "a" ]} two_streams = (σ', Raise e)
    ∧ (p_constant <$> params two_streams 1%positive !! "x") = Some true
    ∧ (p_constant <$> params σ' 1%positive !! "x") = Some false.
Proof.
  destruct (update_refused_leaves_constants_lifted host_items host_items_perm
              host_set_iter all_return two_streams 1%positive true
              {[ "x" := VStr "a" ]} "x" (VStr "a"))
    as (σ' & e & Hrun & Hps & _).
  - vm_compute. reflexivity.
  - vm_compute. reflexivity.
  - exists σ', e. split; [exact Hrun|]. split.
    + vm_compute. reflexivity.
    + rewrite Hps. vm_compute. reflexivity.
Defined.





(** ** The further properties on the sample host and stores *)

(** [Rename(x='posx')] on [{'y': 4}]. *)
Lemma Rename_call_no_alias_witness :
  Rename_call host_items {[ "x" := "posx" ]} {[ "y" := VNum 4 ]}
  = {[ "y" := VNum 4 ]}.
Proof.
  apply (Rename_call_no_alias host_items host_items_perm).
  intros k [v [<- _]%lookup_singleton_Some]. reflexivity.
Defined.

(** [Rename(x='y')] on [{'x': 3, 'y': 4}]: one entry is left. *)
Lemma Rename_call_keys_witness :
  (size (Rename_call host_items {[ "x" := "y" ]}
           (<[ "x" := VNum 3 ]> {[ "y" := VNum 4 ]}))
   ≤ size (<[ "x" := VNum 3 ]> ({[ "y" := VNum 4 ]} : Dict)))%nat.
Proof.
  exact (proj2 (Rename_call_keys host_items host_items_perm
                  {[ "x" := "y" ]} (<[ "x" := VNum 3 ]> {[ "y" := VNum 4 ]}))).
Defined.

(** [Rename(posx='x')(Rename(x='posx')({'x': 3, 'y': 4}))]. *)
Lemma Rename_call_round_trip_witness :
  Rename_call host_items {[ "posx" := "x" ]}
    (Rename_call host_items {[ "x" := "posx" ]}
       (<[ "x" := VNum 3 ]> {[ "y" := VNum 4 ]}))
  = <[ "x" := VNum 3 ]> {[ "y" := VNum 4 ]}.
Proof.
  apply (Rename_call_round_trip host_items host_items_perm).
  - intros k1 k2 [v1 H1] [v2 H2].
    apply lookup_insert_Some in H1 as [[<- _]|[_ [<- _]%lookup_singleton_Some]];
      apply lookup_insert_Some in H2 as [[<- _]|[_ [<- _]%lookup_singleton_Some]];
      vm_compute; congruence.
  - intros k [v H].
    apply lookup_insert_Some in H as [[<- _]|[_ [<- _]%lookup_singleton_Some]];
      reflexivity.
Defined.

(** [Stream.trigger([a, b])] when [s7] raises. *)
Lemma trigger_only_calls_subscribers_witness :
  ∃ new r,
    Stream_trigger host_items host_set_iter seven_raises
      [1%positive; 2%positive] two_streams_subscribed
    = (log_calls new two_streams_subscribed, r)
    ∧ NoDup new.*1.
Proof.
  destruct (trigger_only_calls_subscribers host_items host_set_iter
              host_set_iter_perm seven_raises two_streams_subscribed
              [1%positive; 2%positive])
    as (new & r & Hrun & _ & _ & _ & _ & _ & _ & Hnd & _).
  exists new, r. split; [exact Hrun|exact Hnd].
Defined.

(** [Stream.trigger([a, b])] before any subscriber is registered. *)
Lemma trigger_without_subscribers_witness :
  Stream_trigger host_items host_set_iter all_return
    [1%positive; 2%positive] two_streams
  = (two_streams, Ok tt).
Proof.
  assert (∀ s : loc, s ∈ [1%positive; 2%positive] →
                     all_subscribers two_streams s = []) as Hnone.
  { intros s [->|[->|Hs]%elem_of_cons]%elem_of_cons.
    - vm_compute. reflexivity.
    - vm_compute. reflexivity.
    - inversion Hs. }
  exact (trigger_without_subscribers host_items host_set_iter
           host_set_iter_perm all_return two_streams
           [1%positive; 2%positive] Hnone).
Defined.

Lemma host_set_iter_rev_perm X : host_set_iter_rev X ≡ₚ elements X.
Proof. unfold host_set_iter_rev. by rewrite reverse_Permutation. Defined.

(** [Stream.trigger([a, c])] and [Stream.trigger([c, a])] for a [PositionX]
    and a [PositionY], the second set iterated in the opposite order. *)
Lemma trigger_same_streams_witness :
  ∃ order order',
    Stream_trigger host_items host_set_iter all_return
      [1%positive; 2%positive] x_and_y_streams
    = (log_calls
         (map (λ c, (c, trigger_union host_items x_and_y_streams
                          [1%positive; 2%positive])) order)
         x_and_y_streams, Ok tt)
    ∧ Stream_trigger host_items host_set_iter_rev all_return
        [2%positive; 1%positive] x_and_y_streams
      = (log_calls
           (map (λ c, (c, trigger_union host_items x_and_y_streams
                            [1%positive; 2%positive])) order')
           x_and_y_streams, Ok tt)
    ∧ order ≡ₚ order'.
Proof.
  assert (∀ s : loc, s ∈ [1%positive; 2%positive]
                     ↔ s ∈ [2%positive; 1%positive]) as Hsame.
  { intros s. rewrite !elem_of_cons. tauto. }
  assert (value host_items x_and_y_streams 1%positive = {[ "x" := VNum 1 ]})
    as Hv1 by (vm_compute; reflexivity).
  assert (value host_items x_and_y_streams 2%positive = {[ "y" := VNum 2 ]})
    as Hv2 by (vm_compute; reflexivity).
  assert (∀ (s1 s2 : loc) k (x1 x2 : PyVal),
            s1 ∈ [1%positive; 2%positive] → s2 ∈ [1%positive; 2%positive] →
            value host_items x_and_y_streams s1 !! k = Some x1 →
            value host_items x_and_y_streams s2 !! k = Some x2 →
            x1 = x2) as Hcompat.
  { intros s1 s2 k x1 x2 Hs1 Hs2.
    apply elem_of_cons in Hs1 as [->|Hs1];
      [|apply list_elem_of_singleton in Hs1 as ->];
      (apply elem_of_cons in Hs2 as [->|Hs2];
        [|apply list_elem_of_singleton in Hs2 as ->]);
      rewrite ?Hv1, ?Hv2; intros H1 H2; try congruence;
      apply lookup_singleton_Some in H1 as [<- _];
      apply lookup_singleton_Some in H2 as [? _]; discriminate. }
  destruct (trigger_same_streams host_items host_items_perm host_set_iter
              host_set_iter_perm all_return x_and_y_streams
              [1%positive; 2%positive] [2%positive; 1%positive]
              host_set_iter_rev host_set_iter_rev_perm Hsame Hcompat)
    as (_ & _ & Hreturn & _).
  destruct Hreturn as (order & order' & Hrun & Hrun' & Hperm & _);
    [intros c _; reflexivity|].
  exists order, order'. split; [exact Hrun|]. split; [exact Hrun'|exact Hperm].
Defined.

(** [a.update(trigger=False, x=5)]. *)
Lemma update_changes_only_supplied_fields_witness :
  ∃ σ1 o1,
    Stream_update host_items host_set_iter all_return 1%positive false
      {[ "x" := VNum 5 ]} two_streams_subscribed = (σ1, Ok tt)
    ∧ calls σ1 = calls two_streams_subscribed
    ∧ objects σ1 = <[1%positive := o1]> (objects two_streams_subscribed)
    ∧ value host_items σ1 2%positive
      = value host_items two_streams_subscribed 2%positive.
Proof.
  assert (objects two_streams_subscribed !! 1%positive
          = Some (objects two_streams_subscribed !!! 1%positive)) as Ho
    by (vm_compute; reflexivity).
  assert (∀ k, is_Some (({[ "x" := VNum 5 ]} : Dict) !! k) →
               is_Some (params two_streams_subscribed 1%positive !! k)) as Hdecl.
  { intros k [v [<- _]%lookup_singleton_Some]. vm_compute. by eexists. }
  assert (∀ k v, ({[ "x" := VNum 5 ]} : Dict) !! k = Some v →
                 rejects (params two_streams_subscribed 1%positive) k v = false)
    as Hok.
  { intros k v [<- <-]%lookup_singleton_Some. vm_compute. reflexivity. }
  destruct (update_changes_only_supplied_fields host_items host_items_perm
              host_set_iter all_return two_streams_subscribed 1%positive _
              {[ "x" := VNum 5 ]} Ho Hdecl Hok)
    as (σ1 & o1 & Hrun & Hcalls & _ & _ & _ & _ & Hobj & _ & _ & _ & _ & _ & _
        & _ & Hval).
  exists σ1, o1. split_and!; [exact Hrun|exact Hcalls|exact Hobj|].
  apply Hval. discriminate.
Defined.

(** [a.update(trigger=False)]. *)
Lemma update_without_keywords_witness :
  Stream_update host_items host_set_iter all_return 1%positive false ∅
    two_streams
  = (two_streams, Ok tt).
Proof.
  exact (proj1 (update_without_keywords host_items host_items_perm
                  host_set_iter all_return two_streams 1%positive)).
Defined.


(** [a.update(x='a')] when [s7] is a subscriber of [a]. *)
Lemma update_refused_calls_nobody_witness :
  ∃ σ' e,
    Stream_update host_items host_set_iter all_return 1%positive true
      {[ "x" := VStr "a" ]} two_streams_subscribed = (σ', Raise e)
    ∧ calls σ' = calls two_streams_subscribed.
Proof.
  assert (({[ "x" := VStr "a" ]} : Dict) !! "x" = Some (VStr "a")) as Hkv
    by (vm_compute; reflexivity).
  assert (rejects (params two_streams_subscribed 1%positive) "x" (VStr "a")
          = true) as Hbad by (vm_compute; reflexivity).
  destruct (update_refused_calls_nobody host_items host_items_perm
              host_set_iter all_return two_streams_subscribed 1%positive true
              {[ "x" := VStr "a" ]} "x" (VStr "a") Hkv Hbad)
    as (σ' & e & Hrun & Hcalls & _).
  exists σ', e. split; [exact Hrun|exact Hcalls].
Defined.

Lemma registry_live_module_store : registry_live module_store.
Proof. intros l Hl. inversion Hl. Defined.

(** [PositionX(source=obj9)] after the import of the module, then
    [Stream.find(obj9)]. *)
Lemma find_after_construction_witness :
  Stream_find stream_with_source (Some 9%positive)
  = {[ 1%positive ]} ∪ Stream_find module_store (Some 9%positive).
Proof.
  assert (Stream_init host_items "PositionX" MappingNone (Some 9%positive)
            None None ∅ module_store
          = (stream_with_source, Ok 1%positive)) as Hrun
    by (vm_compute; reflexivity).
  assert (∀ k, is_Some ((∅ : Dict) !! k) →
               is_Some (class_params module_store "PositionX" !! k)) as Hdecl.
  { intros k [v Hk]. by rewrite lookup_empty in Hk. }
  exact (proj2 (proj2 (proj2
           (find_after_construction host_items "PositionX" MappingNone
              (Some 9%positive) None None ∅ module_store stream_with_source
              1%positive registry_live_module_store Hdecl Hrun)))
           (Some 9%positive)).
Defined.

(** [PositionXY('pos')] after the import of the module. *)
Lemma failed_construction_registers_nothing_witness :
  registry failed_construction = registry module_store.
Proof.
  assert (Stream_init host_items "PositionXY" (MappingOther "pos") None None
            None ∅ module_store
          = (failed_construction,
             Raise (Exception
                      "Stream has multiple parameters, please supply a dictionary")))
    as Hrun by (vm_compute; reflexivity).
  exact (proj1 (failed_construction_registers_nothing host_items "PositionXY"
                  (MappingOther "pos") None None None ∅ module_store
                  failed_construction _ registry_live_module_store Hrun)).
Defined.

(** [a.update(x='a')] and [PositionX(x=3)] after [a] and [b], and the
    registry. *)
Lemma registry_never_shrinks_witness :
  registry (Stream_update host_items host_set_iter all_return 1%positive true
              {[ "x" := VStr "a" ]} two_streams).1
  = registry two_streams
  ∧ ∃ suffix,
      registry (Stream_init host_items "PositionX" MappingNone None None None
                  {[ "x" := VNum 3 ]} two_streams).1
      = registry two_streams ++ suffix
      ∧ (length suffix ≤ 1)%nat.
Proof.
  pose proof (registry_never_shrinks host_items host_items_perm host_set_iter
                all_return two_streams) as (_ & Hupdate & Hinit).
  split.
  - exact (proj1 (Hupdate 1%positive true {[ "x" := VStr "a" ]})).
  - apply (Hinit "PositionX" MappingNone None None None {[ "x" := VNum 3 ]}).
    intros k [v [<- _]%lookup_singleton_Some].
    vm_compute. eexists. reflexivity.
Defined.

(** [a = PositionX(x=1); b = PositionX(x=2)]: the hidden lists. *)
Lemma hidden_subscribers_are_private_witness :
  ∃ ha hb,
    _hidden_subscribers (objects two_streams !!! 1%positive) = ha
    ∧ _hidden_subscribers (objects two_streams !!! 2%positive) = hb
    ∧ ha ≠ hb
    ∧ ∀ c, all_subscribers (list_append ha c two_streams).1 2%positive
           = all_subscribers two_streams 2%positive.
Proof.
  assert (Stream_init host_items "PositionX" MappingNone None None None
            {[ "x" := VNum 1 ]} module_store = (first_stream, Ok 1%positive))
    as Hrun1 by (vm_compute; reflexivity).
  assert (Stream_init host_items "PositionX" MappingNone None None None
            {[ "x" := VNum 2 ]} first_stream = (two_streams, Ok 2%positive))
    as Hrun2 by (vm_compute; reflexivity).
  assert (∀ (σ : Store) (x : PyVal) k,
            classes σ = classes module_store →
            is_Some (({[ "x" := x ]} : Dict) !! k) →
            is_Some (class_params σ "PositionX" !! k)) as Hdecl.
  { intros σ x k Hcls [v [<- _]%lookup_singleton_Some].
    unfold class_params. rewrite Hcls. vm_compute. eexists. reflexivity. }
  destruct (hidden_subscribers_are_private host_items
              "PositionX" "PositionX" MappingNone MappingNone None None
              None None None None {[ "x" := VNum 1 ]} {[ "x" := VNum 2 ]}
              module_store first_stream two_streams 1%positive 2%positive
              (λ k, Hdecl module_store (VNum 1) k eq_refl)
              (λ k, Hdecl first_stream (VNum 2) k eq_refl)
              Hrun1 Hrun2)
    as (ha & hb & Ha & Hb & Hne & _ & _ & _ & _ & _ & _ & Hpriv).
  exists ha, hb. split_and!; [exact Ha|exact Hb|exact Hne|].
  intros c. apply Hpriv. discriminate.
Defined.

(** [PositionX({'z': 'w'})]: the class has no field [z]. *)
Lemma init_mapping_not_validated_witness :
  ∃ σ' self,
    Stream_init host_items "PositionX" (MappingDict {[ "z" := "w" ]})
      None None None ∅ module_store = (σ', Ok self)
    ∧ mapping (objects σ' !!! self) = {[ "z" := "w" ]}.
Proof.
  destruct (init_mapping_not_validated host_items host_items_perm "PositionX"
              (MappingDict {[ "z" := "w" ]}) None None None ∅ module_store)
    as (σ' & self & Hrun & _ & Hmap & _).
  - right. by eexists.
  - intros k [v Hk]. by rewrite lookup_empty in Hk.
  - intros k v Hk. by rewrite lookup_empty in Hk.
  - exists σ', self. split; [exact Hrun|exact Hmap].
Defined.


(** [a.update(trigger=False, x=5)], then [a.value]. *)
Lemma value_after_update_witness :
  ∃ σ1,
    Stream_update host_items host_set_iter all_return 1%positive false
      {[ "x" := VNum 5 ]} two_streams = (σ1, Ok tt)
    ∧ value host_items σ1 1%positive
      = delete "name" {[ "x" := VNum 5 ]} ∪ value host_items two_streams 1%positive.
Proof.
  assert (objects two_streams !! 1%positive
          = Some (objects two_streams !!! 1%positive)) as Ho
    by (vm_compute; reflexivity).
  assert (mapping (objects two_streams !!! 1%positive) = ∅) as Hmap
    by (vm_compute; reflexivity).
  assert (pre_lists two_streams
          !!! preprocessors (objects two_streams !!! 1%positive) = []) as Hpre
    by (vm_compute; reflexivity).
  assert (∀ k, is_Some (({[ "x" := VNum 5 ]} : Dict) !! k) →
               is_Some (params two_streams 1%positive !! k)) as Hdecl.
  { intros k [v [<- _]%lookup_singleton_Some]. vm_compute. by eexists. }
  assert (∀ k v, ({[ "x" := VNum 5 ]} : Dict) !! k = Some v →
                 rejects (params two_streams 1%positive) k v = false) as Hok.
  { intros k v [<- <-]%lookup_singleton_Some. vm_compute. reflexivity. }
  exact (value_after_update host_items host_items_perm host_set_iter all_return
           two_streams 1%positive _ {[ "x" := VNum 5 ]} Ho Hmap Hpre Hdecl Hok).
Defined.

